(** * The RAG orchestrator of [src/core/rag-application.ts]

    A shallow embedding of the class [RAGApplication]: its constructor, the
    ingestion pipeline ([batchLoadEmbeddings], [batchLoadChunks],
    [incrementalLoader], [addLoader]), the destructive operations
    ([deleteLoader], [deleteAllEmbeddings]) and the retrieval pipeline
    ([getEmbeddings], [getContext], [query]), and [init] with the
    pass-through reads.  The constructor of [FireworksEmbedding]
    ([src/embeddings/fireworks-embeddings.ts]) and the generator of
    [YoutubeChannelLoader] are embedded next to it.

    The collaborators the class only knows through an interface (vector
    store, cache, embedding provider, reranker, generation model) are
    type classes and records of functions.  Every method is a computation
    in a state-and-exception monad over the application object; each call
    to a collaborator is appended to a log kept next to the object. *)

From Stdlib Require Import List String Bool Arith Lia ZArith QArith.
From Stdlib Require Import DecimalString Sorted.
From Stdlib Require Import Permutation.
Import ListNotations.

Local Close Scope Q_scope.
Local Open Scope string_scope.
Local Open Scope list_scope.
Local Open Scope nat_scope.

Set Implicit Arguments.

(** ** JavaScript collections that keep insertion order *)

(** A JS [Map] (and the own string keys of a plain object): an association
    list in insertion order.  Setting a key that is present overwrites the
    value where the key already stands; a new key goes to the end. *)
Module JsMap.
Section Defs.
Variables K V : Type.
Variable eqb : K -> K -> bool.

Definition t := list (K * V).

Fixpoint set (m : t) (k : K) (v : V) : t :=
  match m with
  | [] => [(k, v)]
  | (k', v') :: m' =>
      if eqb k' k then (k', v) :: m' else (k', v') :: set m' k v
  end.

Fixpoint get (m : t) (k : K) : option V :=
  match m with
  | [] => None
  | (k', v') :: m' => if eqb k' k then Some v' else get m' k
  end.

(** [new Map(entries)] *)
Definition of_entries (entries : list (K * V)) : t :=
  fold_left (fun m e => set m (fst e) (snd e)) entries [].

(** [map.values()] *)
Definition values (m : t) : list V := List.map snd m.

Definition keys (m : t) : list K := List.map fst m.
End Defs.
End JsMap.

(** A JS [Set]: the members in insertion order, without repetition. *)
Module JsSet.
Section Defs.
Variable A : Type.
Variable eqb : A -> A -> bool.

Definition t := list A.

Definition has (s : t) (x : A) : bool := existsb (eqb x) s.

Definition add (s : t) (x : A) : t := if has s x then s else s ++ [x].

(** [new Set(items)] *)
Definition of_list (items : list A) : t := fold_left add items [].
End Defs.
End JsSet.

Definition option_eqb {A : Type} (eqb : A -> A -> bool) (x y : option A) : bool :=
  match x, y with
  | Some a, Some b => eqb a b
  | None, None => true
  | _, _ => false
  end.

(** ** Data model ([global/types.ts], as used by the orchestrator) *)

(** A metadata object: string keys in insertion order.  A key that is absent
    reads as [undefined], here [None]. *)
Definition Metadata := JsMap.t string string.

Definition metadata_set (m : Metadata) (k v : string) : Metadata :=
  JsMap.set String.eqb m k v.

Definition metadata_get (m : Metadata) (k : string) : option string :=
  JsMap.get String.eqb m k.

(** An embedding, [number[]]. *)
Definition Vector := list Q.

(** [LoaderChunk] and [Chunk]: what a loader yields, and the same after the
    orchestrator has stamped [uniqueLoaderId] and [id] into the metadata. *)
Module Chunk.
Record t := mk { pageContent : string; metadata : Metadata }.
End Chunk.

(** [InsertChunkData]: a chunk with its vector.  [vector] is
    [embeddings[index]], which is [undefined] when the provider returned
    fewer vectors than texts. *)
Module InsertChunkData.
Record t := mk { pageContent : string; vector : option Vector; metadata : Metadata }.
End InsertChunkData.

(** [ExtractChunkData]: a search result.  A score is a finite JS number,
    kept as its exact rational value; comparisons and the sign of a
    difference of two finite doubles agree with those of the values. *)
Module ExtractChunkData.
Record t := mk { pageContent : string; metadata : Metadata; score : Q }.
End ExtractChunkData.

(** The cache's record of a loader. *)
Record LoaderRecord := { chunkCount : nat }.

(** ** Exceptions and results *)

Inductive Error :=
| SyntaxError (message : string)
| CollaboratorError (message : string).

Inductive Result (A : Type) :=
| Ok (a : A)
| Throw (e : Error).
Arguments Ok {A} a.
Arguments Throw {A} e.

(** ** Collaborator interfaces *)

(** [interfaces/base-db.ts].  A store is a value of type [D]; a method that
    writes returns the store after the call, also when it throws. *)
Module BaseDb.
Class t (D : Type) := {
  insertChunks : list InsertChunkData.t -> D -> Result nat * D;
  similaritySearch : Vector -> nat -> D -> Result (list ExtractChunkData.t);
  getVectorCount : D -> nat;
  deleteKeys : string -> D -> Result bool * D;
  reset : D -> Result unit * D
}.
End BaseDb.

(** [interfaces/base-cache.ts], the four methods the orchestrator calls. *)
Module BaseCache.
Class t (C : Type) := {
  hasLoader : string -> C -> Result bool;
  getLoader : string -> C -> Result LoaderRecord;
  addLoader : string -> nat -> C -> Result unit * C;
  deleteLoader : string -> C -> Result unit * C
}.
End BaseCache.

(** [interfaces/base-embeddings.ts] *)
Record BaseEmbeddings := {
  embedDocuments : list string -> Result (list Vector);
  embedQuery : string -> Result Vector
}.

(** [interfaces/base-reranker.ts] *)
Record BaseReranker := {
  reRankDocuments : string -> list ExtractChunkData.t -> Result (list ExtractChunkData.t)
}.

(** [interfaces/base-model.ts]: [query(template, userQuery, context, conversationId)]. *)
Record BaseModel := {
  model_query : string -> string -> list ExtractChunkData.t -> option string -> Result string
}.

(** [interfaces/base-loader.ts], as far as the orchestrator uses a loader:
    its id, the chunks its generator yields before it completes, and the
    incremental-load flag. *)
Record BaseLoader := {
  getUniqueId : string;
  getChunks : list Chunk.t;
  canIncrementallyLoad : bool
}.

(** What the orchestrator does to the outside, in the order it does it. *)
Inductive Call :=
| LoaderInit (uniqueId : string)
| LoaderOn (uniqueId event : string)
| EmbedDocuments (texts : list string)
| EmbedQuery (text : string)
| DbInsertChunks (chunks : list InsertChunkData.t)
| DbSimilaritySearch (query : Vector) (k : nat)
| DbDeleteKeys (uniqueLoaderId : string)
| DbReset
| CacheHasLoader (uniqueLoaderId : string)
| CacheGetLoader (uniqueLoaderId : string)
| CacheAddLoader (uniqueLoaderId : string) (count : nat)
| CacheDeleteLoader (uniqueLoaderId : string)
| RerankDocuments (query : string) (documents : list ExtractChunkData.t)
| ModelQuery (template userQuery : string) (context : list ExtractChunkData.t)
    (conversationId : option string)
| ConsoleWarn (message : string).

(** ** Reference implementations of the storage interfaces

    Two small in-memory collaborators, used to run the orchestrator on
    concrete inputs. *)

(** A vector store that keeps its rows in a list.  [deleteKeys] removes the
    rows whose metadata carries the loader id and answers whether a row was
    removed; a search scores a row by the dot product with the query. *)
Module MemoryDb.
Definition t := list InsertChunkData.t.

Definition tagged (uniqueLoaderId : string) (row : InsertChunkData.t) : bool :=
  option_eqb String.eqb
    (metadata_get (InsertChunkData.metadata row) "uniqueLoaderId")
    (Some uniqueLoaderId).

Definition dot (u v : Vector) : Q :=
  fold_right Qplus 0%Q (map (fun p => (fst p * snd p)%Q) (combine u v)).

Definition result_of (query : Vector) (row : InsertChunkData.t) : ExtractChunkData.t :=
  ExtractChunkData.mk (InsertChunkData.pageContent row)
    (InsertChunkData.metadata row)
    (dot query (match InsertChunkData.vector row with Some v => v | None => [] end)).

Definition insertChunks (chunks : list InsertChunkData.t) (d : t) : Result nat * t :=
  (Ok (List.length chunks), d ++ chunks).

Definition similaritySearch (query : Vector) (k : nat) (d : t)
  : Result (list ExtractChunkData.t) :=
  Ok (firstn k (map (result_of query) d)).

Definition deleteKeys (uniqueLoaderId : string) (d : t) : Result bool * t :=
  let kept := filter (fun row => negb (tagged uniqueLoaderId row)) d in
  (Ok (negb (List.length kept =? List.length d)), kept).

Definition reset (d : t) : Result unit * t := (Ok tt, []).

#[global] Instance db : BaseDb.t t := {
  BaseDb.insertChunks := insertChunks;
  BaseDb.similaritySearch := similaritySearch;
  BaseDb.getVectorCount := @List.length _;
  BaseDb.deleteKeys := deleteKeys;
  BaseDb.reset := reset
}.
End MemoryDb.

(** A cache that keeps one count per loader id. *)
Module MemoryCache.
Definition t := JsMap.t string nat.

Definition hasLoader (uniqueLoaderId : string) (c : t) : Result bool :=
  Ok (match JsMap.get String.eqb c uniqueLoaderId with Some _ => true | None => false end).

Definition getLoader (uniqueLoaderId : string) (c : t) : Result LoaderRecord :=
  match JsMap.get String.eqb c uniqueLoaderId with
  | Some n => Ok {| chunkCount := n |}
  | None => Throw (CollaboratorError "loader not in cache")
  end.

Definition addLoader (uniqueLoaderId : string) (count : nat) (c : t) : Result unit * t :=
  (Ok tt, JsMap.set String.eqb c uniqueLoaderId count).

Definition deleteLoader (uniqueLoaderId : string) (c : t) : Result unit * t :=
  (Ok tt, filter (fun e => negb (String.eqb (fst e) uniqueLoaderId)) c).

#[global] Instance cache : BaseCache.t t := {
  BaseCache.hasLoader := hasLoader;
  BaseCache.getLoader := getLoader;
  BaseCache.addLoader := addLoader;
  BaseCache.deleteLoader := deleteLoader
}.
End MemoryCache.

(** ** Helpers standing for JS built-ins *)

(** [`${n}`] for an array index. *)
Definition string_of_nat (n : nat) : string :=
  NilEmpty.string_of_uint (Nat.to_uint n).

(** [a % b === 0] on non-negative integers; [a % 0] is [NaN], which is not [0]. *)
Definition mod_is_zero (a b : nat) : bool :=
  match b with
  | 0 => false
  | _ => a mod b =? 0
  end.

(** [array.map((x, index) => f(x, index))] *)
Fixpoint mapi_from {A B : Type} (index : nat) (f : A -> nat -> B) (l : list A) : list B :=
  match l with
  | [] => []
  | x :: l' => f x index :: mapi_from (S index) f l'
  end.

Definition mapi {A B : Type} (f : A -> nat -> B) (l : list A) : list B :=
  mapi_from 0 f l.

(** [x > y] on numbers. *)
Definition Qgtb (x y : Q) : bool := negb (Qle_bool x y).

(** [array.sort(compare)]: the stable sort of ECMAScript; [a] is placed
    after [b] exactly when [compare(a, b) > 0]. *)
Fixpoint sort_insert {A : Type} (compare : A -> A -> Q) (a : A) (l : list A) : list A :=
  match l with
  | [] => [a]
  | b :: l' =>
      if Qgtb (compare a b) 0%Q then b :: sort_insert compare a l' else a :: l
  end.

Definition js_sort {A : Type} (compare : A -> A -> Q) (l : list A) : list A :=
  fold_right (sort_insert compare) [] l.

(** ** The orchestrator *)

Record AddLoaderReturn := { entriesAdded : nat; uniqueId : string }.

Record QueryResponse := { result : string; sources : list (option string) }.

Section State.
Variables D C : Type.

(** What [RAGApplicationBuilder]'s getters answer. *)
Record RAGApplicationBuilder := {
  getCache : option C;
  getModel : option BaseModel;
  getTemperature : Q;
  getQueryTemplate : string;
  getLoaders : list BaseLoader;
  getVectorDb : option D;
  getReranker : option BaseReranker;
  getSearchResultCount : nat;
  getEmbeddingRelevanceCutOff : Q;
  getEmbeddingModel : option BaseEmbeddings
}.

(** The fields of the class; [embedding] is the [RAGEmbedding] singleton
    and [calls] the log of calls made so far, oldest first. *)
Record RAGApplication := mkRAGApplication {
  queryTemplate : string;
  searchResultCount : nat;
  cache : option C;
  vectorDb : D;
  reranker : option BaseReranker;
  model : BaseModel;
  embeddingRelevanceCutOff : Q;
  loaders : list BaseLoader;
  embedding : BaseEmbeddings;
  calls : list Call
}.

Definition with_cache (c : option C) (app : RAGApplication) : RAGApplication :=
  mkRAGApplication (queryTemplate app) (searchResultCount app) c (vectorDb app)
    (reranker app) (model app) (embeddingRelevanceCutOff app) (loaders app)
    (embedding app) (calls app).

Definition with_vectorDb (d : D) (app : RAGApplication) : RAGApplication :=
  mkRAGApplication (queryTemplate app) (searchResultCount app) (cache app) d
    (reranker app) (model app) (embeddingRelevanceCutOff app) (loaders app)
    (embedding app) (calls app).

Definition with_loaders (l : list BaseLoader) (app : RAGApplication) : RAGApplication :=
  mkRAGApplication (queryTemplate app) (searchResultCount app) (cache app) (vectorDb app)
    (reranker app) (model app) (embeddingRelevanceCutOff app) l
    (embedding app) (calls app).

Definition with_calls (l : list Call) (app : RAGApplication) : RAGApplication :=
  mkRAGApplication (queryTemplate app) (searchResultCount app) (cache app) (vectorDb app)
    (reranker app) (model app) (embeddingRelevanceCutOff app) (loaders app)
    (embedding app) l.

(** *** The monad of methods *)

Definition M (A : Type) : Type := RAGApplication -> Result A * RAGApplication.

Definition ret {A : Type} (a : A) : M A := fun app => (Ok a, app).

Definition bind {A B : Type} (m : M A) (k : A -> M B) : M B :=
  fun app =>
    match m app with
    | (Ok a, app') => k a app'
    | (Throw e, app') => (Throw e, app')
    end.

Definition this {A : Type} (field : RAGApplication -> A) : M A :=
  fun app => (Ok (field app), app).

Definition record (c : Call) : M unit :=
  fun app => (Ok tt, with_calls (calls app ++ [c]) app).

Definition await {A : Type} (r : Result A) : M A := fun app => (r, app).

Definition set_loaders (l : list BaseLoader) : M unit :=
  fun app => (Ok tt, with_loaders l app).

(** A call to a method of [this.vectorDb] that may write the store. *)
Definition vectorDb_call {A : Type} (c : Call) (method : D -> Result A * D) : M A :=
  fun app =>
    let (r, d) := method (vectorDb app) in
    (r, with_vectorDb d (with_calls (calls app ++ [c]) app)).

(** A call to a method of the cache object [c] that may write it. *)
Definition cache_call {A : Type} (call : Call) (method : C -> Result A * C) (c : C) : M A :=
  fun app =>
    let (r, c') := method c in
    (r, with_cache (Some c') (with_calls (calls app ++ [call]) app)).
End State.

Declare Scope method_scope.
Delimit Scope method_scope with method.
Notation "x <- m ;; k" := (bind m (fun x => k))
  (at level 61, m at next level, right associativity) : method_scope.
Notation "m ;; k" := (bind m (fun _ => k))
  (at level 61, right associativity) : method_scope.

(** ** The remaining collaborator methods

    What [init], [createVectorIndex] and [docsCount] call beyond the methods
    above: [init] of the model and of the cache, the rest of
    [interfaces/base-db.ts], [getDimensions] of the embedding provider and
    [getUnique] of [util/arrays.ts] (applied to the key ['getUniqueId']).
    Their implementations are not part of the sources at hand; a value of
    this record supplies them.  A dimension may be [undefined], here [None]. *)
Record Lifecycle (D C : Type) := {
  model_init : BaseModel -> Result unit;
  vectorDb_init : option nat -> D -> Result unit * D;
  vectorDb_createVectorIndex : option nat -> D -> Result unit * D;
  vectorDb_docsCount : D -> Result nat;
  cache_init : C -> Result unit * C;
  getDimensions : BaseEmbeddings -> option nat;
  getUnique : list BaseLoader -> list BaseLoader
}.

(** ** [embeddings/fireworks-embeddings.ts] *)
Module FireworksEmbedding.
(** [params?: { modelName?: string, dimension: number }] *)
Record Params := { params_modelName : option string; params_dimension : nat }.

(** The options handed to the LangChain class. *)
Record Options := { opt_modelName : string; maxConcurrency : nat; maxRetries : nat }.

Record t := {
  model : BaseEmbeddings;
  modelName : string;
  dimension : option nat
}.

(** The constructor, given the constructor of LangChain's [FireworksEmbeddings].
    When [this.dimension = this.dimension] runs the field has not been
    written, so what is read and stored is [undefined]. *)
Definition constructor (FireworksEmbeddings : Options -> BaseEmbeddings)
    (params : option Params) : t :=
  let unset : option nat := None in
  let dimension := unset in
  let modelName :=
    match params with
    | Some p =>
        match params_modelName p with
        | Some name => name
        | None => "nomic-ai/nomic-embed-text-v1"
        end
    | None => "nomic-ai/nomic-embed-text-v1"
    end in
  {| dimension := dimension;
     modelName := modelName;
     model := FireworksEmbeddings
                {| opt_modelName := modelName; maxConcurrency := 3; maxRetries := 5 |} |}.

Definition getDimensions (this : t) : option nat := dimension this.

Definition embedDocuments (this : t) (texts : list string) : Result (list Vector) :=
  embedDocuments (model this) texts.

Definition embedQuery (this : t) (text : string) : Result Vector :=
  embedQuery (model this) text.
End FireworksEmbedding.

(** ** The YouTube channel loader ([YoutubeChannelLoader]) *)
Module YoutubeChannelLoader.
(** A run of an async generator to its end: the chunks it yielded, and the
    exception that ended it, if one did. *)
Record Generated := { yielded : list Chunk.t; thrown : option Error }.

(** A video as [usetube] lists it. *)
Record Video := { id : string }.

(** The fields of a loader that [getUnfilteredChunks] reads. *)
Record t := { channelId : string; chunkSize : nat; chunkOverlap : option nat }.

Section Methods.
(** [usetube.getChannelVideos] and the generator of a [YoutubeLoader] built
    for a video id, chunk size and chunk overlap ([loaders/youtube-loader.ts]);
    neither is part of the sources at hand. *)
Variable getChannelVideos : string -> Result (list Video).
Variable YoutubeLoader_getUnfilteredChunks : string -> nat -> option nat -> Generated.

(** [{ ...chunk, metadata: { ...chunk.metadata, type: ..., originalSource: ... } }] *)
Definition restamp (this : t) (chunk : Chunk.t) : Chunk.t :=
  Chunk.mk (Chunk.pageContent chunk)
    (metadata_set
       (metadata_set (Chunk.metadata chunk) "type" "YoutubeChannelLoader")
       "originalSource" (channelId this)).

(** The [for (const videoId of videoIds)] loop: an exception of an inner
    generator leaves the loop. *)
Fixpoint videos_loop (this : t) (videoIds : list string) : Generated :=
  match videoIds with
  | [] => {| yielded := []; thrown := None |}
  | videoId :: rest =>
      let inner :=
        YoutubeLoader_getUnfilteredChunks videoId (chunkSize this) (chunkOverlap this) in
      let chunks := map (restamp this) (yielded inner) in
      match thrown inner with
      | Some e => {| yielded := chunks; thrown := Some e |}
      | None =>
          let later := videos_loop this rest in
          {| yielded := chunks ++ yielded later; thrown := thrown later |}
      end
  end.

(** [getUnfilteredChunks]: the [try] block around everything, with a
    [catch] that only writes a debug line. *)
Definition getUnfilteredChunks (this : t) : Generated :=
  match getChannelVideos (channelId this) with
  | Ok videos =>
      let videoIds := map id videos in
      {| yielded := yielded (videos_loop this videoIds); thrown := None |}
  | Throw e => {| yielded := []; thrown := None |}
  end.
(** The chunks of the videos [videoIds], as the channel loader passes them
    on when every generator completes. *)
Definition all_chunks (this : t) (videoIds : list string) : list Chunk.t :=
  flat_map
    (fun videoId =>
       map (restamp this)
         (yielded (YoutubeLoader_getUnfilteredChunks videoId (chunkSize this)
                     (chunkOverlap this))))
    videoIds.

End Methods.
End YoutubeChannelLoader.

(** A vector store that refuses every write. *)
Module BrokenDb.
Definition t := unit.

Definition refused {A : Type} : Result A := Throw (CollaboratorError "store unavailable").

#[global] Instance db : BaseDb.t t := {
  BaseDb.insertChunks := fun _ d => (refused, d);
  BaseDb.similaritySearch := fun _ _ _ => refused;
  BaseDb.getVectorCount := fun _ => 0;
  BaseDb.deleteKeys := fun _ d => (refused, d);
  BaseDb.reset := fun d => (refused, d)
}.
End BrokenDb.

(** ** Concrete collaborators for the examples *)
Module Fixture.
(** An embedding provider that maps every text to the vector [[1]]. *)
Definition embeddings : BaseEmbeddings := {|
  embedDocuments := fun texts => Ok (map (fun _ => [1%Q]) texts);
  embedQuery := fun _ => Ok [1%Q]
|}.

Definition llm : BaseModel := {| model_query := fun _ _ _ _ => Ok "answer" |}.

(** An application over the in-memory store and cache, without reranker. *)
Definition app (cache : option MemoryCache.t) (rows : MemoryDb.t)
    (searchResultCount : nat) (cutOff : Q) (loaders : list BaseLoader)
  : RAGApplication MemoryDb.t MemoryCache.t :=
  mkRAGApplication "template" searchResultCount cache rows None llm cutOff
    loaders embeddings [].

Definition chunk (text source : string) : Chunk.t :=
  Chunk.mk text [("source", source)].

(** A loader with id [id] that yields one chunk per text. *)
Definition loader (id : string) (texts : list string) : BaseLoader := {|
  getUniqueId := id;
  getChunks := map (fun text => chunk text id) texts;
  canIncrementallyLoad := false
|}.

(** A stored row whose score against the query vector [[1]] is [score]. *)
Definition row (text source : string) (score : Q) : InsertChunkData.t :=
  InsertChunkData.mk text (Some [score]) [("source", source)].

(** A stand-in for [cleanString] and a batch size for the examples. *)
Definition identity (s : string) : string := s.

Definition batch_size : nat := 2.

(** A search result. *)
Definition hit (text source : string) (score : Q) : ExtractChunkData.t :=
  ExtractChunkData.mk text [("source", source)] score.

(** A row as [batchLoadChunks] stores it for loader [id] at index [n]. *)
Definition stored (id text : string) (n : nat) : InsertChunkData.t :=
  InsertChunkData.mk text (Some [1%Q])
    [("source", id); ("uniqueLoaderId", id); ("id", (id ++ "_" ++ string_of_nat n)%string)].

(** A store in which the text ["a"] occurs twice, from two sources. *)
Definition retrieval : RAGApplication MemoryDb.t MemoryCache.t :=
  app None
    [row "a" "s1" (9 # 10); row "b" "s2" (6 # 10); row "a" "s3" (8 # 10);
     row "d" "s4" (3 # 10)]
    3 (1 # 2) [].

(** The scenario of the specification: scores 0.9, 0.6, 0.4, 0.3, cut-off 0.5
    and a result count of 2. *)
Definition scenario : RAGApplication MemoryDb.t MemoryCache.t :=
  app None
    [row "a" "s1" (9 # 10); row "b" "s2" (6 # 10); row "c" "s3" (4 # 10);
     row "d" "s4" (3 # 10)]
    2 (1 # 2) [].

(** An empty store with an empty cache. *)
Definition empty : RAGApplication MemoryDb.t MemoryCache.t :=
  app (Some []) [] 2 (1 # 2) [].

(** The loader ["L"] is tracked and recorded in the cache, the store holds
    nothing for it. *)
Definition tracked : RAGApplication MemoryDb.t MemoryCache.t :=
  app (Some [("L", 1)]) [] 2 (1 # 2) [loader "L" ["a"]].

(** Two rows of loader ["L"] and one of loader ["K"] are stored, and the
    cache records the count 2 for ["L"]. *)
Definition ingested : RAGApplication MemoryDb.t MemoryCache.t :=
  app (Some [("L", 2)]) [stored "L" "a" 0; stored "K" "x" 0; stored "L" "b" 1]
    2 (1 # 2) [loader "L" ["a"; "b"]].

Definition builder_without_model : RAGApplicationBuilder MemoryDb.t MemoryCache.t := {|
  getCache := None;
  getModel := None;
  getTemperature := 0%Q;
  getQueryTemplate := "template";
  getLoaders := [];
  getVectorDb := Some [];
  getReranker := None;
  getSearchResultCount := 2;
  getEmbeddingRelevanceCutOff := (1 # 2)%Q;
  getEmbeddingModel := Some embeddings
|}.

(** An embedding provider that is down. *)
Definition failing_embeddings : BaseEmbeddings := {|
  embedDocuments := fun _ => Throw (CollaboratorError "embedding service down");
  embedQuery := fun _ => Throw (CollaboratorError "embedding service down")
|}.

(** [empty] with the embedding provider down. *)
Definition offline : RAGApplication MemoryDb.t MemoryCache.t :=
  mkRAGApplication "template" 2 (Some []) [] None llm (1 # 2)%Q [] failing_embeddings [].

(** An application over a store that refuses every write; ["L"] is tracked
    and recorded. *)
Definition unavailable : RAGApplication BrokenDb.t MemoryCache.t :=
  mkRAGApplication "template" 2 (Some [("L", 1)]) tt None llm (1 # 2)%Q
    [loader "L" ["a"]] embeddings [].

(** Two rows of loader ["L"] are stored while the cache records the count 0
    for it. *)
Definition recorded_zero : RAGApplication MemoryDb.t MemoryCache.t :=
  app (Some [("L", 0)]) [stored "L" "a" 0; stored "L" "b" 1] 2 (1 # 2) [loader "L" ["a"; "b"]].

(** No cache, two configured loaders. *)
Definition configured : RAGApplication MemoryDb.t MemoryCache.t :=
  app None [] 2 (1 # 2) [loader "L" ["a"; "b"; "c"]; loader "K" ["x"]].

(** Search results with a tie at 0.7. *)
Definition tied : RAGApplication MemoryDb.t MemoryCache.t :=
  app None
    [row "a" "s1" (7 # 10); row "b" "s2" (9 # 10); row "c" "s3" (7 # 10);
     row "d" "s4" (3 # 10)]
    2 (1 # 2) [].

(** A stand-in for [getUnique]: of the loaders with one id, the last is kept. *)
Definition keep_last (l : list BaseLoader) : list BaseLoader :=
  fold_right
    (fun x kept =>
       if existsb (fun y => String.eqb (getUniqueId y) (getUniqueId x)) kept
       then kept else x :: kept)
    [] l.

(** Collaborators that initialise without complaint. *)
Definition lifecycle : Lifecycle MemoryDb.t MemoryCache.t := {|
  model_init := fun _ => Ok tt;
  vectorDb_init := fun _ d => (Ok tt, d);
  vectorDb_createVectorIndex := fun _ d => (Ok tt, d);
  vectorDb_docsCount := fun d => Ok (List.length d);
  cache_init := fun c => (Ok tt, c);
  getDimensions := fun _ => Some 768;
  getUnique := keep_last
|}.

(** A channel with three videos; the generator of the second yields one
    chunk and then throws. *)
Definition channel : YoutubeChannelLoader.t := {|
  YoutubeChannelLoader.channelId := "UC1";
  YoutubeChannelLoader.chunkSize := 2000;
  YoutubeChannelLoader.chunkOverlap := None
|}.

Definition channel_videos (channelId : string) : Result (list YoutubeChannelLoader.Video) :=
  Ok [ {| YoutubeChannelLoader.id := "v1" |}; {| YoutubeChannelLoader.id := "v2" |};
       {| YoutubeChannelLoader.id := "v3" |} ].

Definition video_chunks (videoId : string) (chunkSize : nat) (chunkOverlap : option nat)
  : YoutubeChannelLoader.Generated :=
  let text := Chunk.mk videoId [("type", "YoutubeLoader"); ("source", videoId)] in
  if String.eqb videoId "v2"
  then {| YoutubeChannelLoader.yielded := [text];
          YoutubeChannelLoader.thrown := Some (CollaboratorError "no transcript") |}
  else {| YoutubeChannelLoader.yielded := [text; text];
          YoutubeChannelLoader.thrown := None |}.

(** The same videos with generators that all complete. *)
Definition sound_video_chunks (videoId : string) (chunkSize : nat) (chunkOverlap : option nat)
  : YoutubeChannelLoader.Generated :=
  {| YoutubeChannelLoader.yielded :=
       [Chunk.mk videoId [("type", "YoutubeLoader"); ("source", videoId)]];
     YoutubeChannelLoader.thrown := None |}.

End Fixture.

Section Orchestrator.
Context {D C : Type} {vectorDbOps : BaseDb.t D} {cacheOps : BaseCache.t C}.

(** [DEFAULT_INSERT_BATCH_SIZE] of [global/constants.ts], [cleanString] of
    [util/strings.ts] and the default embedding model of
    [embeddings/nomic-v1-5-embeddings.ts] are not part of the sources at
    hand; the development is parametric in them. *)
Variable DEFAULT_INSERT_BATCH_SIZE : nat.
Variable cleanString : string -> string.
Variable NomicEmbeddingsv1_5 : BaseEmbeddings.

Local Open Scope method_scope.
Local Abbreviation Method := (M D C).

(** The constructor.  The static setters it calls ([BaseLoader.setCache],
    [BaseModel.setDefaultTemperature]) write nothing the class reads back.
    A missing model or vector store is [undefined], here [None]. *)
Definition constructor (llmBuilder : RAGApplicationBuilder D C)
  : Result (RAGApplication D C) :=
  let cache := getCache llmBuilder in
  let model := getModel llmBuilder in
  let queryTemplate := cleanString (getQueryTemplate llmBuilder) in
  let loaders := getLoaders llmBuilder in
  let vectorDb := getVectorDb llmBuilder in
  let reranker := getReranker llmBuilder in
  let searchResultCount := getSearchResultCount llmBuilder in
  let embeddingRelevanceCutOff := getEmbeddingRelevanceCutOff llmBuilder in
  let embedding :=
    match getEmbeddingModel llmBuilder with
    | Some e => e
    | None => NomicEmbeddingsv1_5
    end in
  match model with
  | None => Throw (SyntaxError "Model not set")
  | Some model =>
      match vectorDb with
      | None => Throw (SyntaxError "VectorDb not set")
      | Some vectorDb =>
          Ok (mkRAGApplication queryTemplate searchResultCount cache vectorDb
                reranker model embeddingRelevanceCutOff loaders embedding [])
      end
  end.

Definition embedChunks (chunks : list Chunk.t) : Method (list Vector) :=
  let texts := map Chunk.pageContent chunks in
  e <- this (@embedding D C) ;;
  record (EmbedDocuments texts) ;;
  await (embedDocuments e texts).

Definition getChunkUniqueId (loaderUniqueId : string) (incrementId : nat) : string :=
  loaderUniqueId ++ "_" ++ string_of_nat incrementId.

Definition batchLoadEmbeddings (loaderUniqueId : string) (formattedChunks : list Chunk.t)
  : Method nat :=
  if List.length formattedChunks =? 0 then ret 0
  else
    embeddings <- embedChunks formattedChunks ;;
    let embedChunks :=
      mapi (fun chunk index =>
              InsertChunkData.mk (Chunk.pageContent chunk)
                (nth_error embeddings index)
                (Chunk.metadata chunk))
           formattedChunks in
    vectorDb_call (DbInsertChunks embedChunks) (BaseDb.insertChunks embedChunks).

(** The chunk of [batchLoadChunks] at index [i]:
    [{ ...chunk.metadata, uniqueLoaderId: uniqueId, id: ... }]. *)
Definition formatChunk (uniqueId : string) (i : nat) (chunk : Chunk.t) : Chunk.t :=
  Chunk.mk (Chunk.pageContent chunk)
    (metadata_set
       (metadata_set (Chunk.metadata chunk) "uniqueLoaderId" uniqueId)
       "id" (getChunkUniqueId uniqueId i)).

(** The [for await] loop of [batchLoadChunks], from the state
    [(i, batchSize, newInserts, formattedChunks)] over the chunks the
    generator still yields. *)
Fixpoint batchLoadChunks_loop (uniqueId : string) (incrementalGenerator : list Chunk.t)
    (i batchSize newInserts : nat) (formattedChunks : list Chunk.t)
  : Method (nat * list Chunk.t) :=
  match incrementalGenerator with
  | [] => ret (newInserts, formattedChunks)
  | chunk :: rest =>
      let batchSize := S batchSize in
      let formattedChunk := formatChunk uniqueId i chunk in
      let i := S i in
      let formattedChunks := formattedChunks ++ [formattedChunk] in
      if mod_is_zero batchSize DEFAULT_INSERT_BATCH_SIZE then
        inserted <- batchLoadEmbeddings uniqueId formattedChunks ;;
        batchLoadChunks_loop uniqueId rest i 0 (newInserts + inserted) []
      else
        batchLoadChunks_loop uniqueId rest i batchSize newInserts formattedChunks
  end.

Definition batchLoadChunks (uniqueId : string) (incrementalGenerator : list Chunk.t)
  : Method (nat * list Chunk.t) :=
  st <- batchLoadChunks_loop uniqueId incrementalGenerator 0 0 0 [] ;;
  let newInserts := fst st in
  let formattedChunks := snd st in
  inserted <- batchLoadEmbeddings uniqueId formattedChunks ;;
  ret (newInserts + inserted, formattedChunks).

(** The handler of ['incrementalChunkAvailable']. *)
Definition incrementalLoader (uniqueId : string) (incrementalGenerator : list Chunk.t)
  : Method unit :=
  st <- batchLoadChunks uniqueId incrementalGenerator ;;
  ret tt.

Definition deleteLoader (uniqueLoaderId : string) (areYouSure : bool) : Method bool :=
  if negb areYouSure then
    record (ConsoleWarn
      "Delete embeddings from loader called without confirmation. No action taken.") ;;
    ret false
  else
    deleteResult <- vectorDb_call (DbDeleteKeys uniqueLoaderId)
                      (BaseDb.deleteKeys uniqueLoaderId) ;;
    this_cache <- this (@cache D C) ;;
    match this_cache with
    | Some c =>
        if deleteResult
        then cache_call (CacheDeleteLoader uniqueLoaderId)
               (BaseCache.deleteLoader uniqueLoaderId) c
        else ret tt
    | None => ret tt
    end ;;
    this_loaders <- this (@loaders D C) ;;
    set_loaders
      (filter (fun x => negb (String.eqb (getUniqueId x) uniqueLoaderId)) this_loaders) ;;
    ret deleteResult.

Definition addLoader (loader : BaseLoader) : Method AddLoaderReturn :=
  let uniqueId := getUniqueId loader in
  record (LoaderInit uniqueId) ;;
  let chunks := getChunks loader in
  this_cache <- this (@cache D C) ;;
  match this_cache with
  | Some c =>
      record (CacheHasLoader uniqueId) ;;
      known <- await (BaseCache.hasLoader uniqueId c) ;;
      if known then
        record (CacheGetLoader uniqueId) ;;
        previous <- await (BaseCache.getLoader uniqueId c) ;;
        let previousChunkCount := chunkCount previous in
        if 0 <? previousChunkCount
        then deleteLoader uniqueId true ;; ret tt
        else ret tt
      else ret tt
  | None => ret tt
  end ;;
  st <- batchLoadChunks uniqueId chunks ;;
  let newInserts := fst st in
  let formattedChunks := snd st in
  this_cache <- this (@cache D C) ;;
  match this_cache with
  | Some c =>
      cache_call (CacheAddLoader uniqueId (List.length formattedChunks))
        (BaseCache.addLoader uniqueId (List.length formattedChunks)) c
  | None => ret tt
  end ;;
  (if canIncrementallyLoad loader
   then record (LoaderOn uniqueId "incrementalChunkAvailable")
   else ret tt) ;;
  this_loaders <- this (@loaders D C) ;;
  set_loaders
    (filter (fun x => negb (String.eqb (getUniqueId x) (getUniqueId loader))) this_loaders
     ++ [loader]) ;;
  ret {| entriesAdded := newInserts; uniqueId := uniqueId |}.

Definition getEmbeddingsCount : Method nat :=
  this (fun app => BaseDb.getVectorCount (vectorDb app)).

Definition deleteAllEmbeddings (areYouSure : bool) : Method bool :=
  if negb areYouSure then
    record (ConsoleWarn "Reset embeddings called without confirmation. No action taken.") ;;
    ret false
  else
    vectorDb_call DbReset BaseDb.reset ;;
    ret true.

(** [similaritySearch] only reads the store. *)
Definition vectorDb_read {A : Type} (c : Call) (method : D -> Result A) : Method A :=
  record c ;;
  d <- this (@vectorDb D C) ;;
  await (method d).

Definition getEmbeddings (cleanQuery : string) : Method (list ExtractChunkData.t) :=
  e <- this (@embedding D C) ;;
  record (EmbedQuery cleanQuery) ;;
  queryEmbedded <- await (embedQuery e cleanQuery) ;;
  searchResultCount <- this (@searchResultCount D C) ;;
  unfilteredResultSet <-
    vectorDb_read (DbSimilaritySearch queryEmbedded (searchResultCount + 10))
      (BaseDb.similaritySearch queryEmbedded (searchResultCount + 10)) ;;
  this_reranker <- this (@reranker D C) ;;
  unfilteredResultSet <-
    match this_reranker with
    | Some r =>
        record (RerankDocuments cleanQuery unfilteredResultSet) ;;
        await (reRankDocuments r cleanQuery unfilteredResultSet)
    | None => ret unfilteredResultSet
    end ;;
  embeddingRelevanceCutOff <- this (@embeddingRelevanceCutOff D C) ;;
  ret (firstn searchResultCount
         (js_sort (fun a b => (ExtractChunkData.score b - ExtractChunkData.score a)%Q)
            (filter (fun result => Qgtb (ExtractChunkData.score result)
                                    embeddingRelevanceCutOff)
               unfilteredResultSet))).

Definition getContext (query : string) : Method (list ExtractChunkData.t) :=
  let cleanQuery := cleanString query in
  rawContext <- getEmbeddings cleanQuery ;;
  ret (JsMap.values
         (JsMap.of_entries String.eqb
            (map (fun item => (ExtractChunkData.pageContent item, item)) rawContext))).

Definition query (userQuery : string) (conversationId : option string)
  : Method QueryResponse :=
  context <- getContext userQuery ;;
  let sources :=
    JsSet.of_list (option_eqb String.eqb)
      (map (fun chunk => metadata_get (ExtractChunkData.metadata chunk) "source") context) in
  m <- this (@model D C) ;;
  template <- this (@queryTemplate D C) ;;
  record (ModelQuery template userQuery context conversationId) ;;
  answer <- await (model_query m template userQuery context conversationId) ;;
  ret {| sources := sources; result := answer |}.

(** *** Initialisation and the pass-through reads *)

(** A call to a method of [this.vectorDb] or of the cache that [init] and
    [createVectorIndex] make; these calls are not kept in the log. *)
Definition vectorDb_write {A : Type} (method : D -> Result A * D) : Method A :=
  fun app =>
    let (r, d) := method (vectorDb app) in
    (r, with_vectorDb d app).

Definition cache_write {A : Type} (method : C -> Result A * C) (c : C) : Method A :=
  fun app =>
    let (r, c') := method c in
    (r, with_cache (Some c') app).

(** [for await (const x of l) { await body(x) }] over the array [l] as it is
    when the loop starts. *)
Fixpoint for_each {A : Type} (l : list A) (body : A -> Method unit) : Method unit :=
  match l with
  | [] => ret tt
  | x :: l' => body x ;; for_each l' body
  end.

(** [init].  The loop runs over the array that [this.loaders] holds after
    [getUnique]; [addLoader] replaces [this.loaders] by a new array and does
    not write the one being iterated. *)
Definition init (env : Lifecycle D C) : Method unit :=
  m <- this (@model D C) ;;
  await (model_init env m) ;;
  e <- this (@embedding D C) ;;
  vectorDb_write (vectorDb_init env (getDimensions env e)) ;;
  this_cache <- this (@cache D C) ;;
  match this_cache with
  | Some c => cache_write (cache_init env) c
  | None => ret tt
  end ;;
  configured <- this (@loaders D C) ;;
  set_loaders (getUnique env configured) ;;
  this_loaders <- this (@loaders D C) ;;
  for_each this_loaders (fun loader => addLoader loader ;; ret tt).

Definition createVectorIndex (env : Lifecycle D C) : Method unit :=
  e <- this (@embedding D C) ;;
  vectorDb_write (vectorDb_createVectorIndex env (getDimensions env e)).

Definition docsCount (env : Lifecycle D C) : Method nat :=
  d <- this (@vectorDb D C) ;;
  await (vectorDb_docsCount env d).

(** ** What the claims are measured against *)

(** The members of a list in the order of their first occurrence. *)
Fixpoint first_occurrences {A : Type} (eqb : A -> A -> bool) (l : list A) : list A :=
  match l with
  | [] => []
  | x :: l' => x :: filter (fun y => negb (eqb x y)) (first_occurrences eqb l')
  end.

(** The last fragment of [l] whose page content is [k]. *)
Fixpoint last_with_content (k : string) (l : list ExtractChunkData.t)
  : option ExtractChunkData.t :=
  match l with
  | [] => None
  | item :: l' =>
      match last_with_content k l' with
      | Some later => Some later
      | None =>
          if String.eqb (ExtractChunkData.pageContent item) k then Some item else None
      end
  end.

(** The first fragment of [l] whose page content is [k]. *)
Definition first_with_content (k : string) (l : list ExtractChunkData.t)
  : option ExtractChunkData.t :=
  find (fun item => String.eqb (ExtractChunkData.pageContent item) k) l.

(** Scores from high to low. *)
Definition descending (l : list ExtractChunkData.t) : Prop :=
  StronglySorted
    (fun a b => (ExtractChunkData.score b <= ExtractChunkData.score a)%Q) l.

(** The calls a method made: what it appended to the log. *)
Definition made_calls (before after : RAGApplication D C) (new : list Call) : Prop :=
  calls after = calls before ++ new.

(** The entry [[item.pageContent, item]] of the map built in [getContext]. *)
Definition content_entry (item : ExtractChunkData.t) : string * ExtractChunkData.t :=
  (ExtractChunkData.pageContent item, item).

(** [chunk.metadata.source] *)
Definition source_of (chunk : ExtractChunkData.t) : option string :=
  metadata_get (ExtractChunkData.metadata chunk) "source".

(** The cache call of a confirmed [deleteLoader] whose vector-store deletion
    answered [deleteResult]. *)
Definition cache_removal (this_cache : option C) (deleteResult : bool) (uniqueLoaderId : string)
  : list Call :=
  match this_cache with
  | Some _ => if deleteResult then [CacheDeleteLoader uniqueLoaderId] else []
  | None => []
  end.

(** The cache after a confirmed [deleteLoader] that completed. *)
Definition cache_after_removal (this_cache : option C) (deleteResult : bool)
    (uniqueLoaderId : string) : option C :=
  match this_cache with
  | Some c =>
      if deleteResult then Some (snd (BaseCache.deleteLoader uniqueLoaderId c)) else Some c
  | None => None
  end.

(** The cache, where it is asked to remove the record, answers. *)
Definition cache_removal_completes (this_cache : option C) (deleteResult : bool)
    (uniqueLoaderId : string) : Prop :=
  match this_cache with
  | Some c =>
      deleteResult = true -> fst (BaseCache.deleteLoader uniqueLoaderId c) = Ok tt
  | None => True
  end.

(** [loaders.filter((x) => x.getUniqueId() != uniqueLoaderId)] *)
Definition without_loader (uniqueLoaderId : string) (l : list BaseLoader) : list BaseLoader :=
  filter (fun x => negb (String.eqb (getUniqueId x) uniqueLoaderId)) l.

(** The comparison function of [getEmbeddings], [(a, b) => b.score - a.score]. *)
Definition by_score (a b : ExtractChunkData.t) : Q :=
  (ExtractChunkData.score b - ExtractChunkData.score a)%Q.

(** What the reranker step of [getEmbeddings] yields from the search results. *)
Definition reranked (this_reranker : option BaseReranker) (cleanQuery : string)
    (found : list ExtractChunkData.t) : Result (list ExtractChunkData.t) :=
  match this_reranker with
  | Some r => reRankDocuments r cleanQuery found
  | None => Ok found
  end.

(** The filter, sort and slice at the end of [getEmbeddings]. *)
Definition ranked (searchResultCount : nat) (cutOff : Q)
    (unfilteredResultSet : list ExtractChunkData.t) : list ExtractChunkData.t :=
  firstn searchResultCount
    (js_sort by_score
       (filter (fun result => Qgtb (ExtractChunkData.score result) cutOff)
          unfilteredResultSet)).

(** The scenario of the specification: results scored 0.9, 0.6, 0.4, 0.3. *)
Definition scenario_scores : list Q := [9 # 10; 6 # 10; 4 # 10; 3 # 10]%Q.

(** The fragments of [l] have, in order, the scores [scores]. *)
Definition scored (l : list ExtractChunkData.t) (scores : list Q) : Prop :=
  Forall2 (fun r s => (ExtractChunkData.score r == s)%Q) l scores.

(** The vector-store contract the counting claims assume: [insertChunks]
    inserts every chunk it is given and returns how many. *)
Definition insert_contract : Prop :=
  forall (chunks : list InsertChunkData.t) (d : D),
  exists d',
    BaseDb.insertChunks chunks d = (Ok (List.length chunks), d')
    /\ BaseDb.getVectorCount d' = BaseDb.getVectorCount d + List.length chunks.

(** The embedding provider answers every request. *)
Definition embeds (e : BaseEmbeddings) : Prop :=
  forall texts, exists vectors, embedDocuments e texts = Ok vectors.

(** The chunk a stored row was made from. *)
Definition chunk_of (row : InsertChunkData.t) : Chunk.t :=
  Chunk.mk (InsertChunkData.pageContent row) (InsertChunkData.metadata row).

(** The rows handed to [insertChunks] by a sequence of calls, in order. *)
Fixpoint inserted (l : list Call) : list InsertChunkData.t :=
  match l with
  | [] => []
  | DbInsertChunks chunks :: l' => chunks ++ inserted l'
  | _ :: l' => inserted l'
  end.

(** The calls of [batchLoadEmbeddings]. *)
Definition is_ingest_call (c : Call) : bool :=
  match c with
  | EmbedDocuments _ | DbInsertChunks _ => true
  | _ => false
  end.

(** A run that only embedded and inserted: it made the calls [new], all of
    them [embedDocuments] or [insertChunks], and left the cache, the tracked
    loaders and the embedding provider alone. *)
Definition ingest_run (app app' : RAGApplication D C) (new : list Call) : Prop :=
  made_calls app app' new
  /\ forallb is_ingest_call new = true
  /\ cache app' = cache app
  /\ loaders app' = loaders app
  /\ embedding app' = embedding app.

(** What [getEmbeddingsCount] reads. *)
Definition vector_count (app : RAGApplication D C) : nat :=
  BaseDb.getVectorCount (vectorDb app).

(** [formatChunk] with the arguments in the order of [mapi]. *)
Definition format_at (uniqueId : string) (chunk : Chunk.t) (index : nat) : Chunk.t :=
  formatChunk uniqueId index chunk.

(** The cache may be written: [addLoader] of the cache answers. *)
Definition cache_records : Prop :=
  forall (uniqueLoaderId : string) (count : nat) (c : C),
    fst (BaseCache.addLoader uniqueLoaderId count c) = Ok tt.

(** [addLoader] from the call of [batchLoadChunks] on; [addLoader_fresh] and
    [addLoader_again] below show that [addLoader] continues with it. *)
Definition addLoader_ingest (loader : BaseLoader) : M D C AddLoaderReturn :=
  let uniqueId := getUniqueId loader in
  bind (batchLoadChunks uniqueId (getChunks loader)) (fun st =>
  bind (this (@cache D C)) (fun this_cache =>
  bind match this_cache with
       | Some c =>
           cache_call (CacheAddLoader uniqueId (List.length (snd st)))
             (BaseCache.addLoader uniqueId (List.length (snd st))) c
       | None => ret tt
       end (fun _ =>
  bind (if canIncrementallyLoad loader
        then record (LoaderOn uniqueId "incrementalChunkAvailable")
        else ret tt) (fun _ =>
  bind (this (@loaders D C)) (fun this_loaders =>
  bind (set_loaders
          (filter (fun x => negb (String.eqb (getUniqueId x) (getUniqueId loader)))
             this_loaders ++ [loader])) (fun _ =>
  ret {| entriesAdded := fst st; uniqueId := uniqueId |})))))).

(** The calls of [addLoader] after the last insertion, when the last batch
    had [pending] chunks. *)
Definition closing_calls (this_cache : option C) (loader : BaseLoader) (pending : nat)
  : list Call :=
  match this_cache with
  | Some _ => [CacheAddLoader (getUniqueId loader) pending]
  | None => []
  end
  ++ (if canIncrementallyLoad loader
      then [LoaderOn (getUniqueId loader) "incrementalChunkAvailable"]
      else []).

(** The cache after [addLoader] recorded [pending] for the loader id. *)
Definition cache_after_record (this_cache : option C) (uniqueLoaderId : string)
    (pending : nat) : option C :=
  match this_cache with
  | Some c => Some (snd (BaseCache.addLoader uniqueLoaderId pending c))
  | None => None
  end.

(** The cache, if there is one, holds no record for the loader id. *)
Definition no_prior_record (uniqueLoaderId : string) (app : RAGApplication D C) : Prop :=
  match cache app with
  | Some c => BaseCache.hasLoader uniqueLoaderId c = Ok false
  | None => True
  end.

(** The calls of [addLoader] before [batchLoadChunks] when nothing is deleted. *)
Definition opening_calls (this_cache : option C) (uniqueLoaderId : string) : list Call :=
  LoaderInit uniqueLoaderId ::
  match this_cache with
  | Some _ => [CacheHasLoader uniqueLoaderId]
  | None => []
  end.

(** The calls that remove entries from the vector store. *)
Definition is_deletion (c : Call) : bool :=
  match c with
  | DbDeleteKeys _ | DbReset => true
  | _ => false
  end.

(** [row.metadata.id] *)
Definition id_of (row : InsertChunkData.t) : option string :=
  metadata_get (InsertChunkData.metadata row) "id".

(** The ids ["<uniqueId>_0"], ["<uniqueId>_1"], ... of a run over [n] chunks. *)
Definition run_ids (uniqueId : string) (n : nat) : list (option string) :=
  map (fun j => Some (uniqueId ++ "_" ++ string_of_nat j)%string) (seq 0 n).

(** A run left the cache, the tracked loaders and the embedding provider as
    they were. *)
Definition kept (app app' : RAGApplication D C) : Prop :=
  cache app' = cache app /\ loaders app' = loaders app /\ embedding app' = embedding app.

(** A call of [batchLoadEmbeddings] carries between 1 and [B] items. *)
Definition batch_within (B : nat) (c : Call) : Prop :=
  match c with
  | EmbedDocuments texts => 1 <= List.length texts <= B
  | DbInsertChunks chunks => 1 <= List.length chunks <= B
  | _ => True
  end.

(** The stored row [row] is the chunk [chunk] of loader [uniqueId]: same page
    content, the loader id under [uniqueLoaderId], and every key other than
    [uniqueLoaderId] and [id] as the loader gave it. *)
Definition stamped (uniqueId : string) (row : InsertChunkData.t) (chunk : Chunk.t) : Prop :=
  InsertChunkData.pageContent row = Chunk.pageContent chunk
  /\ metadata_get (InsertChunkData.metadata row) "uniqueLoaderId" = Some uniqueId
  /\ forall k, k <> "uniqueLoaderId" -> k <> "id" ->
       metadata_get (InsertChunkData.metadata row) k
       = metadata_get (Chunk.metadata chunk) k.

(** The embedding provider throws [e] on every request. *)
Definition embedding_fails (provider : BaseEmbeddings) (e : Error) : Prop :=
  forall texts, embedDocuments provider texts = Throw e.

(** The number of chunks the loaders of [l] yield together. *)
Definition total_chunks (l : list BaseLoader) : nat :=
  list_sum (map (fun loader => List.length (getChunks loader)) l).

(** The fragments that pass the relevance filter of [getEmbeddings]. *)
Definition relevant (cutOff : Q) (l : list ExtractChunkData.t) : list ExtractChunkData.t :=
  filter (fun result => Qgtb (ExtractChunkData.score result) cutOff) l.

(** The fragments of [l] whose score is [s]. *)
Definition with_score (s : Q) (l : list ExtractChunkData.t) : list ExtractChunkData.t :=
  filter (fun result => Qeq_bool (ExtractChunkData.score result) s) l.

(** [addLoader] up to the call of [batchLoadChunks]: the loader is
    initialised and, if the cache knows the loader with a positive count,
    its entries are deleted. *)
Definition addLoader_opening (loader : BaseLoader) : M D C unit :=
  let uniqueId := getUniqueId loader in
  bind (record (LoaderInit uniqueId)) (fun _ =>
  bind (this (@cache D C)) (fun this_cache =>
  match this_cache with
  | Some c =>
      bind (record (CacheHasLoader uniqueId)) (fun _ =>
      bind (await (BaseCache.hasLoader uniqueId c)) (fun known =>
      if known then
        bind (record (CacheGetLoader uniqueId)) (fun _ =>
        bind (await (BaseCache.getLoader uniqueId c)) (fun previous =>
        if 0 <? chunkCount previous
        then bind (deleteLoader uniqueId true) (fun _ => ret tt)
        else ret tt))
      else ret tt))
  | None => ret tt
  end)).

(** The cache returns what it was last given for a loader id. *)
Definition cache_remembers : Prop :=
  forall (uniqueLoaderId : string) (count : nat) (c : C),
    BaseCache.hasLoader uniqueLoaderId (snd (BaseCache.addLoader uniqueLoaderId count c))
    = Ok true
    /\ BaseCache.getLoader uniqueLoaderId (snd (BaseCache.addLoader uniqueLoaderId count c))
       = Ok {| chunkCount := count |}.

(** * Facts about the ordered collections *)

Section CollectionFacts.
Variable A : Type.
Variable eqb : A -> A -> bool.
Hypothesis eqb_spec : forall x y, eqb x y = true <-> x = y.

Lemma eqb_same (x : A) : eqb x x = true.
Proof. now apply eqb_spec. Qed.

Lemma eqb_swap (x y : A) : eqb x y = eqb y x.
Proof.
  destruct (eqb x y) eqn:Hxy, (eqb y x) eqn:Hyx; trivial.
  - apply eqb_spec in Hxy. subst. now rewrite eqb_same in Hyx.
  - apply eqb_spec in Hyx. subst. now rewrite eqb_same in Hxy.
Qed.

Lemma JsSet_has_app (s : list A) (x y : A) :
  JsSet.has eqb (s ++ [x]) y = JsSet.has eqb s y || eqb y x.
Proof.
  unfold JsSet.has. rewrite existsb_app. simpl. now rewrite orb_false_r.
Qed.

Lemma filter_twice (f g : A -> bool) (l : list A) :
  filter f (filter g l) = filter (fun x => g x && f x) l.
Proof.
  induction l as [|x l IH]; simpl; trivial.
  destruct (g x); simpl; [destruct (f x)|]; now rewrite IH.
Qed.

(** Folding [add] over a list extends the set by the new members, each at
    its first occurrence. *)
Lemma JsSet_fold_add (l s : list A) :
  fold_left (JsSet.add eqb) l s
  = s ++ filter (fun y => negb (JsSet.has eqb s y)) (first_occurrences eqb l).
Proof.
  revert s. induction l as [|x l IH]; intros s; simpl.
  - now rewrite app_nil_r.
  - rewrite IH. unfold JsSet.add. destruct (JsSet.has eqb s x) eqn:Hx; simpl.
    + f_equal. rewrite filter_twice. apply filter_ext. intros y.
      destruct (eqb x y) eqn:Hxy; simpl; trivial.
      apply eqb_spec in Hxy. subst. now rewrite Hx.
    + rewrite <- app_assoc. simpl. do 2 f_equal.
      rewrite filter_twice. apply filter_ext. intros y.
      rewrite JsSet_has_app, (eqb_swap y x).
      destruct (eqb x y), (JsSet.has eqb s y); reflexivity.
Qed.

Lemma JsSet_of_list_first_occurrences (l : list A) :
  JsSet.of_list eqb l = first_occurrences eqb l.
Proof.
  unfold JsSet.of_list. rewrite JsSet_fold_add. simpl.
  induction (first_occurrences eqb l) as [|x fo IH]; simpl; [trivial | now f_equal].
Qed.

Lemma first_occurrences_In (l : list A) (x : A) :
  In x (first_occurrences eqb l) <-> In x l.
Proof.
  induction l as [|y l IH]; simpl; [tauto|].
  rewrite filter_In, IH. split.
  - intuition.
  - intros [Hy | Hx]; [now left|].
    destruct (eqb y x) eqn:Hyx.
    + left. now apply eqb_spec.
    + right. now split.
Qed.

Lemma first_occurrences_NoDup (l : list A) : NoDup (first_occurrences eqb l).
Proof.
  induction l as [|y l IH]; simpl; constructor.
  - rewrite filter_In. intros [_ Hy]. now rewrite eqb_same in Hy.
  - now apply NoDup_filter.
Qed.

(** *** The map *)
Variable V : Type.

Lemma JsMap_keys_set (m : JsMap.t A V) (k : A) (v : V) :
  JsMap.keys (JsMap.set eqb m k v) = JsSet.add eqb (JsMap.keys m) k.
Proof.
  unfold JsSet.add, JsSet.has, JsMap.keys.
  induction m as [|[k' v'] m IH]; simpl; trivial.
  rewrite (eqb_swap k k'). destruct (eqb k' k); simpl; trivial.
  rewrite IH. now destruct (existsb (eqb k) (map fst m)).
Qed.

Lemma JsMap_keys_fold (es : list (A * V)) (m : JsMap.t A V) :
  JsMap.keys (fold_left (fun m e => JsMap.set eqb m (fst e) (snd e)) es m)
  = fold_left (JsSet.add eqb) (map fst es) (JsMap.keys m).
Proof.
  revert m. induction es as [|e es IH]; intros m; simpl; trivial.
  now rewrite IH, JsMap_keys_set.
Qed.

Lemma JsMap_keys_of_entries (es : list (A * V)) :
  JsMap.keys (JsMap.of_entries eqb es) = first_occurrences eqb (map fst es).
Proof.
  unfold JsMap.of_entries. rewrite JsMap_keys_fold.
  apply JsSet_of_list_first_occurrences.
Qed.

Lemma JsMap_get_set (m : JsMap.t A V) (k k' : A) (v : V) :
  JsMap.get eqb (JsMap.set eqb m k v) k'
  = if eqb k k' then Some v else JsMap.get eqb m k'.
Proof.
  induction m as [|[k0 v0] m IH]; simpl; trivial.
  destruct (eqb k0 k) eqn:Hk; simpl.
  - apply eqb_spec in Hk. subst. now destruct (eqb k k').
  - destruct (eqb k0 k') eqn:Hk'; [|assumption].
    apply eqb_spec in Hk'. subst. now rewrite (eqb_swap k k'), Hk.
Qed.

Lemma JsMap_get_In (m : JsMap.t A V) (k : A) (v : V) :
  NoDup (JsMap.keys m) -> In (k, v) m -> JsMap.get eqb m k = Some v.
Proof.
  induction m as [|[k0 v0] m IH]; simpl; [tauto|].
  intros Hnd [Heq | Hin].
  - inversion Heq. subst. now rewrite eqb_same.
  - inversion Hnd as [|? ? Hk0 Hnd']. subst.
    destruct (eqb k0 k) eqn:Hk.
    + apply eqb_spec in Hk. subst. exfalso. apply Hk0.
      unfold JsMap.keys. change k with (fst (k, v)). now apply in_map.
    + now apply IH.
Qed.

Lemma JsMap_set_Forall (P : A * V -> Prop) (m : JsMap.t A V) (k : A) (v : V) :
  Forall P m -> P (k, v) -> Forall P (JsMap.set eqb m k v).
Proof.
  intros Hm Hkv. induction m as [|[k0 v0] m IH]; simpl.
  - now constructor.
  - inversion Hm. subst. destruct (eqb k0 k) eqn:Hk.
    + apply eqb_spec in Hk. subst. now constructor.
    + constructor; auto.
Qed.

Lemma JsMap_of_entries_Forall (P : A * V -> Prop) (es : list (A * V)) :
  Forall P es -> Forall P (JsMap.of_entries eqb es).
Proof.
  unfold JsMap.of_entries. generalize (@nil (A * V)) (Forall_nil P).
  induction es as [|[k v] es IH]; intros m Hm Hes; simpl; trivial.
  inversion Hes. subst. apply IH; [|assumption].
  now apply JsMap_set_Forall.
Qed.
End CollectionFacts.

Lemma option_string_eqb_spec (x y : option string) :
  option_eqb String.eqb x y = true <-> x = y.
Proof.
  destruct x as [a|], y as [b|]; simpl; try (split; congruence).
  rewrite String.eqb_eq. split; congruence.
Qed.

(** * Deduplication in [getContext] *)

(** Reading the key [k] after folding [set] over the entries of [l] finds
    the last fragment of [l] with that content, else what was there. *)
Lemma get_fold_last (l : list ExtractChunkData.t) (m : JsMap.t string ExtractChunkData.t)
    (k : string) :
  JsMap.get String.eqb
    (fold_left (fun m e => JsMap.set String.eqb m (fst e) (snd e)) (map content_entry l) m) k
  = match last_with_content k l with
    | Some item => Some item
    | None => JsMap.get String.eqb m k
    end.
Proof.
  revert m. induction l as [|item l IH]; intros m; simpl; trivial.
  rewrite IH. destruct (last_with_content k l); trivial.
  rewrite (JsMap_get_set _ String.eqb_eq).
  now destruct (String.eqb (ExtractChunkData.pageContent item) k).
Qed.

Lemma getContext_unfold (query : string) (app : RAGApplication D C) :
  getContext query app
  = match getEmbeddings (cleanString query) app with
    | (Ok rawContext, app') =>
        (Ok (JsMap.values (JsMap.of_entries String.eqb (map content_entry rawContext))), app')
    | (Throw e, app') => (Throw e, app')
    end.
Proof. reflexivity. Qed.

(** C2, as the code has it: the result of [getContext] has no two fragments
    with the same page content and lists the page contents in the order of
    their first occurrence in the ranked, truncated list; the fragment kept
    for a page content is its last occurrence in that list. *)
Theorem getContext_dedup_last_wins (query : string) (app app' : RAGApplication D C)
    (rawContext : list ExtractChunkData.t) :
  getEmbeddings (cleanString query) app = (Ok rawContext, app') ->
  exists context,
    getContext query app = (Ok context, app')
    /\ NoDup (map ExtractChunkData.pageContent context)
    /\ map ExtractChunkData.pageContent context
       = first_occurrences String.eqb (map ExtractChunkData.pageContent rawContext)
    /\ Forall (fun item =>
                 last_with_content (ExtractChunkData.pageContent item) rawContext = Some item)
         context.
Proof.
  intros Hraw. rewrite getContext_unfold, Hraw.
  set (m := JsMap.of_entries String.eqb (map content_entry rawContext)).
  assert (Hkeys : JsMap.keys m
                  = first_occurrences String.eqb (map ExtractChunkData.pageContent rawContext)).
  { unfold m. rewrite (JsMap_keys_of_entries _ String.eqb_eq), map_map. reflexivity. }
  assert (Hinv : Forall (fun e => fst e = ExtractChunkData.pageContent (snd e)) m).
  { apply (JsMap_of_entries_Forall _ String.eqb_eq).
    apply Forall_forall. intros e He. apply in_map_iff in He.
    destruct He as (item & <- & _). reflexivity. }
  assert (Hpc : map ExtractChunkData.pageContent (JsMap.values m) = JsMap.keys m).
  { unfold JsMap.values, JsMap.keys. rewrite map_map. apply map_ext_Forall.
    revert Hinv. apply Forall_impl. intros e He. now rewrite He. }
  assert (Hnd : NoDup (JsMap.keys m)).
  { rewrite Hkeys. apply (first_occurrences_NoDup _ String.eqb_eq). }
  exists (JsMap.values m). repeat split.
  - now rewrite Hpc.
  - now rewrite Hpc.
  - apply Forall_forall. intros item Hitem.
    unfold JsMap.values in Hitem. apply in_map_iff in Hitem.
    destruct Hitem as ([k v] & Hv & Hin). simpl in Hv. subst v.
    assert (Hk : k = ExtractChunkData.pageContent item).
    { rewrite Forall_forall in Hinv. exact (Hinv _ Hin). }
    subst k.
    pose proof (JsMap_get_In _ String.eqb_eq m _ _ Hnd Hin) as Hget.
    unfold m, JsMap.of_entries in Hget. rewrite get_fold_last in Hget.
    destruct (last_with_content (ExtractChunkData.pageContent item) rawContext);
      [assumption | discriminate].
Qed.

(** * Sources of a query response *)

(** C8: the [sources] of a query response are the [metadata.source] values
    of the context that [getContext] returned and that was handed to the
    generation model, each once, in the order of first occurrence. *)
Theorem query_sources_distinct (userQuery : string) (conversationId : option string)
    (app app1 : RAGApplication D C) (context : list ExtractChunkData.t) (answer : string) :
  getContext userQuery app = (Ok context, app1) ->
  model_query (model app1) (queryTemplate app1) userQuery context conversationId = Ok answer ->
  exists response app2,
    query userQuery conversationId app = (Ok response, app2)
    /\ calls app2
       = calls app1 ++ [ModelQuery (queryTemplate app1) userQuery context conversationId]
    /\ result response = answer
    /\ sources response = first_occurrences (option_eqb String.eqb) (map source_of context)
    /\ NoDup (sources response)
    /\ (forall s, In s (sources response) <-> exists chunk, In chunk context /\ source_of chunk = s).
Proof.
  intros Hctx Hmodel.
  unfold query, bind. rewrite Hctx. unfold this, record, await, ret. simpl.
  rewrite Hmodel. do 2 eexists. split; [reflexivity|]. simpl.
  fold source_of.
  rewrite (JsSet_of_list_first_occurrences _ option_string_eqb_spec).
  repeat split.
  - apply (first_occurrences_NoDup _ option_string_eqb_spec).
  - intros Hs. apply (proj1 (first_occurrences_In _ option_string_eqb_spec _ _)) in Hs.
    apply in_map_iff in Hs. destruct Hs as (chunk & Hsrc & Hin). eauto.
  - intros (chunk & Hin & Hsrc). apply (proj2 (first_occurrences_In _ option_string_eqb_spec _ _)).
    subst s. now apply in_map.
Qed.

(** * Construction *)

(** C9: when the builder supplies no generation model or no vector store,
    the constructor throws a [SyntaxError] and yields no application object,
    so that no method can be run on one. *)
Theorem constructor_requires_model_and_vectorDb (llmBuilder : RAGApplicationBuilder D C) :
  getModel llmBuilder = None \/ getVectorDb llmBuilder = None ->
  constructor llmBuilder
  = Throw (SyntaxError (match getModel llmBuilder with
                        | None => "Model not set"
                        | Some _ => "VectorDb not set"
                        end))
  /\ forall app, constructor llmBuilder <> Ok app.
Proof.
  intros Hmissing. unfold constructor.
  destruct (getModel llmBuilder) as [m|]; [|split; [reflexivity | discriminate]].
  destruct (getVectorDb llmBuilder) as [d|]; [|split; [reflexivity | discriminate]].
  destruct Hmissing; discriminate.
Qed.

(** * Deletion *)

(** C7: without confirmation, [deleteLoader] and [deleteAllEmbeddings] return
    [false] without throwing; the only thing they do is one [console.warn]:
    no call reaches the vector store or the cache, whose states are kept, and
    the tracked loaders stay as they were. *)
Theorem unconfirmed_delete_is_noop (uniqueLoaderId : string) (app : RAGApplication D C) :
  (exists app',
     deleteLoader uniqueLoaderId false app = (Ok false, app')
     /\ made_calls app app'
          [ConsoleWarn
             "Delete embeddings from loader called without confirmation. No action taken."]
     /\ vectorDb app' = vectorDb app /\ cache app' = cache app
     /\ loaders app' = loaders app)
  /\ (exists app',
        deleteAllEmbeddings false app = (Ok false, app')
        /\ made_calls app app'
             [ConsoleWarn "Reset embeddings called without confirmation. No action taken."]
        /\ vectorDb app' = vectorDb app /\ cache app' = cache app
        /\ loaders app' = loaders app).
Proof.
  split; eexists; (split; [reflexivity|]); repeat split.
Qed.

Lemma deleteLoader_confirmed_run (uniqueLoaderId : string) (app : RAGApplication D C)
    (deleteResult : bool) (d' : D) :
  BaseDb.deleteKeys uniqueLoaderId (vectorDb app) = (Ok deleteResult, d') ->
  cache_removal_completes (cache app) deleteResult uniqueLoaderId ->
  exists app',
    deleteLoader uniqueLoaderId true app = (Ok deleteResult, app')
    /\ made_calls app app'
         (DbDeleteKeys uniqueLoaderId :: cache_removal (cache app) deleteResult uniqueLoaderId)
    /\ vectorDb app' = d'
    /\ cache app' = cache_after_removal (cache app) deleteResult uniqueLoaderId
    /\ loaders app' = without_loader uniqueLoaderId (loaders app)
    /\ embedding app' = embedding app.
Proof.
  intros Hdel Hcache.
  unfold deleteLoader, bind, vectorDb_call, this, set_loaders, ret, made_calls. simpl.
  rewrite Hdel. simpl.
  destruct (cache app) as [c|] eqn:Hc; simpl in *.
  - destruct deleteResult; simpl.
    + unfold cache_call. specialize (Hcache eq_refl).
      destruct (BaseCache.deleteLoader uniqueLoaderId c) as [r c'] eqn:Hrm.
      simpl in Hcache. subst r. simpl.
      eexists. split; [reflexivity|]. simpl. rewrite <- app_assoc.
      repeat split.
    + eexists. split; [reflexivity|]. repeat split. simpl. now rewrite Hc.
  - eexists. split; [reflexivity|]. repeat split. simpl. now rewrite Hc.
Qed.

(** C3, as the code has it: a confirmed [deleteLoader] calls the vector
    store's [deleteKeys] for the loader id and returns its answer; the cache
    record is removed only when a cache is configured and the answer is
    [true]; the loader is dropped from the tracked loaders whatever the
    answer is. *)
Theorem deleteLoader_confirmed (uniqueLoaderId : string) (app : RAGApplication D C)
    (deleteResult : bool) (d' : D) :
  BaseDb.deleteKeys uniqueLoaderId (vectorDb app) = (Ok deleteResult, d') ->
  cache_removal_completes (cache app) deleteResult uniqueLoaderId ->
  exists app',
    deleteLoader uniqueLoaderId true app = (Ok deleteResult, app')
    /\ made_calls app app'
         (DbDeleteKeys uniqueLoaderId :: cache_removal (cache app) deleteResult uniqueLoaderId)
    /\ vectorDb app' = d'
    /\ (In (CacheDeleteLoader uniqueLoaderId)
           (cache_removal (cache app) deleteResult uniqueLoaderId)
        <-> deleteResult = true /\ cache app <> None)
    /\ cache app' = cache_after_removal (cache app) deleteResult uniqueLoaderId
    /\ (deleteResult = false -> cache app' = cache app)
    /\ loaders app' = without_loader uniqueLoaderId (loaders app).
Proof.
  intros Hdel Hcache.
  destruct (deleteLoader_confirmed_run uniqueLoaderId app Hdel Hcache)
    as (app' & Hrun & Hcalls & Hdb & Hc & Hl & _).
  exists app'. split; [assumption|]. split; [assumption|]. split; [assumption|].
  split; [|split; [assumption | split; [|assumption]]].
  - unfold cache_removal. destruct (cache app) as [c|]; destruct deleteResult; simpl.
    + split; [intros _; split; [reflexivity | discriminate] | intros _; now left].
    + split; [intros [] | intros [Hf _]; discriminate Hf].
    + split; [intros [] | intros [_ Hn]; now elim Hn].
    + split; [intros [] | intros [Hf _]; discriminate Hf].
  - intros ->. rewrite Hc. unfold cache_after_removal. now destruct (cache app).
Qed.

(** * Ranking in [getEmbeddings] *)

Lemma Qgtb_true (x y : Q) : Qgtb x y = true <-> (y < x)%Q.
Proof.
  unfold Qgtb. rewrite negb_true_iff. split.
  - intros Hle. apply Qnot_le_lt. intros H. apply Qle_bool_iff in H. congruence.
  - intros Hlt. destruct (Qle_bool x y) eqn:Hle; trivial.
    apply Qle_bool_iff in Hle. exfalso. exact (Qlt_not_le _ _ Hlt Hle).
Qed.

Lemma Qgtb_false (x y : Q) : Qgtb x y = false <-> (x <= y)%Q.
Proof.
  unfold Qgtb. rewrite negb_false_iff. apply Qle_bool_iff.
Qed.

Lemma by_score_positive (a b : ExtractChunkData.t) :
  Qgtb (by_score a b) 0 = true
  <-> (ExtractChunkData.score a < ExtractChunkData.score b)%Q.
Proof.
  rewrite Qgtb_true. unfold by_score. symmetry. apply Qlt_minus_iff.
Qed.

Lemma by_score_not_positive (a b : ExtractChunkData.t) :
  Qgtb (by_score a b) 0 = false
  <-> (ExtractChunkData.score b <= ExtractChunkData.score a)%Q.
Proof.
  split.
  - intros Hf. apply Qnot_lt_le. intros Hlt.
    apply by_score_positive in Hlt. congruence.
  - intros Hle. destruct (Qgtb (by_score a b) 0) eqn:Hg; trivial.
    apply by_score_positive in Hg. exfalso. exact (Qlt_not_le _ _ Hg Hle).
Qed.

Section SortFacts.
Variable A : Type.
Variable compare : A -> A -> Q.

Lemma sort_insert_In (a x : A) (l : list A) :
  In x (sort_insert compare a l) <-> x = a \/ In x l.
Proof.
  induction l as [|b l IH]; simpl.
  - intuition.
  - destruct (Qgtb (compare a b) 0); simpl; [rewrite IH|]; intuition.
Qed.

Lemma js_sort_In (x : A) (l : list A) : In x (js_sort compare l) <-> In x l.
Proof.
  induction l as [|a l IH]; simpl; [tauto|].
  rewrite sort_insert_In, IH. intuition.
Qed.

End SortFacts.

Lemma sort_insert_descending (a : ExtractChunkData.t) (l : list ExtractChunkData.t) :
  descending l -> descending (sort_insert by_score a l).
Proof.
  unfold descending. induction 1 as [|b l Hl IH Hb]; simpl.
  - constructor; constructor.
  - destruct (Qgtb (by_score a b) 0) eqn:Hab.
    + apply by_score_positive in Hab. constructor; [assumption|].
      apply Forall_forall. intros x Hx. apply sort_insert_In in Hx.
      destruct Hx as [-> | Hx].
      * now apply Qlt_le_weak.
      * rewrite Forall_forall in Hb. now apply Hb.
    + apply by_score_not_positive in Hab.
      constructor; [now constructor|].
      constructor; [assumption|].
      revert Hb. apply Forall_impl. intros x Hx. now apply Qle_trans with (2 := Hab).
Qed.

Lemma js_sort_descending (l : list ExtractChunkData.t) : descending (js_sort by_score l).
Proof.
  induction l as [|a l IH]; simpl.
  - constructor.
  - now apply sort_insert_descending.
Qed.

Lemma firstn_descending (n : nat) (l : list ExtractChunkData.t) :
  descending l -> descending (firstn n l).
Proof.
  unfold descending. intros Hl. revert n.
  induction Hl as [|a l Hl IH Ha]; intros [|n]; simpl; try constructor.
  - apply IH.
  - rewrite Forall_forall in *. intros x Hx. apply Ha.
    rewrite <- (firstn_skipn n l). apply in_or_app. now left.
Qed.

Lemma firstn_incl (A : Type) (n : nat) (l : list A) (x : A) : In x (firstn n l) -> In x l.
Proof.
  intros Hx. rewrite <- (firstn_skipn n l). apply in_or_app. now left.
Qed.

Lemma getEmbeddings_run (cleanQuery : string) (app : RAGApplication D C)
    (queryEmbedded : Vector) (found unfiltered : list ExtractChunkData.t) :
  embedQuery (embedding app) cleanQuery = Ok queryEmbedded ->
  BaseDb.similaritySearch queryEmbedded (searchResultCount app + 10) (vectorDb app) = Ok found ->
  reranked (reranker app) cleanQuery found = Ok unfiltered ->
  exists app',
    getEmbeddings cleanQuery app
    = (Ok (ranked (searchResultCount app) (embeddingRelevanceCutOff app) unfiltered), app')
    /\ vectorDb app' = vectorDb app /\ cache app' = cache app /\ loaders app' = loaders app
    /\ model app' = model app /\ queryTemplate app' = queryTemplate app.
Proof.
  intros Hq Hfound Hrr.
  unfold getEmbeddings, vectorDb_read, bind, this, record, await, ret. simpl.
  rewrite Hq. simpl. rewrite Hfound.
  unfold reranked in Hrr. destruct (reranker app) as [r|]; simpl.
  - rewrite Hrr. eexists. split; [reflexivity|]. repeat split.
  - inversion Hrr. subst. eexists. split; [reflexivity|]. repeat split.
Qed.

Lemma ranked_properties (K : nat) (cutOff : Q) (unfiltered : list ExtractChunkData.t) :
  List.length (ranked K cutOff unfiltered) <= K
  /\ Forall (fun r => (cutOff < ExtractChunkData.score r)%Q) (ranked K cutOff unfiltered)
  /\ descending (ranked K cutOff unfiltered)
  /\ (forall r, In r (ranked K cutOff unfiltered) -> In r unfiltered).
Proof.
  unfold ranked. repeat split.
  - apply firstn_le_length.
  - apply Forall_forall. intros r Hr. apply firstn_incl in Hr.
    apply js_sort_In in Hr. apply filter_In in Hr. now apply Qgtb_true.
  - apply firstn_descending, js_sort_descending.
  - intros r Hr. apply firstn_incl in Hr. apply js_sort_In in Hr.
    now apply filter_In in Hr.
Qed.

Lemma ranked_scenario (cutOff : Q) (unfiltered : list ExtractChunkData.t) :
  (cutOff == 1 # 2)%Q ->
  scored unfiltered scenario_scores ->
  ranked 2 cutOff unfiltered = firstn 2 unfiltered.
Proof.
  intros Hcut Hs. unfold scored, scenario_scores in Hs.
  inversion Hs as [|c1 s1 l1 t1 H1 Hs1]; subst.
  inversion Hs1 as [|c2 s2 l2 t2 H2 Hs2]; subst.
  inversion Hs2 as [|c3 s3 l3 t3 H3 Hs3]; subst.
  inversion Hs3 as [|c4 s4 l4 t4 H4 Hs4]; subst.
  inversion Hs4; subst.
  assert (G1 : Qgtb (ExtractChunkData.score c1) cutOff = true)
    by (apply Qgtb_true; rewrite Hcut, H1; reflexivity).
  assert (G2 : Qgtb (ExtractChunkData.score c2) cutOff = true)
    by (apply Qgtb_true; rewrite Hcut, H2; reflexivity).
  assert (G3 : Qgtb (ExtractChunkData.score c3) cutOff = false)
    by (apply Qgtb_false; rewrite Hcut, H3; discriminate).
  assert (G4 : Qgtb (ExtractChunkData.score c4) cutOff = false)
    by (apply Qgtb_false; rewrite Hcut, H4; discriminate).
  assert (G12 : Qgtb (by_score c1 c2) 0 = false)
    by (apply by_score_not_positive; rewrite H1, H2; discriminate).
  unfold ranked. simpl. rewrite G1, G2, G3, G4. simpl. now rewrite G12.
Qed.

(** C5: when the embedding provider, the vector store and the reranker (if
    any) answer, [getEmbeddings] returns at most [searchResultCount]
    fragments, each taken from the (reranked) search results with a score
    strictly above the cut-off, in descending order of score; with cut-off
    0.5, a result count of 2 and results scored 0.9, 0.6, 0.4, 0.3 it returns
    the first two of them, in that order. *)
Theorem getEmbeddings_top_k_above_cutoff (cleanQuery : string) (app : RAGApplication D C)
    (queryEmbedded : Vector) (found unfiltered : list ExtractChunkData.t) :
  embedQuery (embedding app) cleanQuery = Ok queryEmbedded ->
  BaseDb.similaritySearch queryEmbedded (searchResultCount app + 10) (vectorDb app) = Ok found ->
  reranked (reranker app) cleanQuery found = Ok unfiltered ->
  exists results app',
    getEmbeddings cleanQuery app = (Ok results, app')
    /\ List.length results <= searchResultCount app
    /\ Forall (fun r => (embeddingRelevanceCutOff app < ExtractChunkData.score r)%Q) results
    /\ descending results
    /\ (forall r, In r results -> In r unfiltered)
    /\ ((embeddingRelevanceCutOff app == 1 # 2)%Q ->
        searchResultCount app = 2 ->
        scored unfiltered scenario_scores ->
        results = firstn 2 unfiltered
        /\ scored results [9 # 10; 6 # 10]%Q).
Proof.
  intros Hq Hfound Hrr.
  destruct (getEmbeddings_run cleanQuery app Hq Hfound Hrr) as (app' & Hrun & _).
  destruct (ranked_properties (searchResultCount app) (embeddingRelevanceCutOff app) unfiltered)
    as (Hlen & Hcut & Hdesc & Hin).
  exists (ranked (searchResultCount app) (embeddingRelevanceCutOff app) unfiltered), app'.
  split; [assumption|]. split; [assumption|]. split; [assumption|].
  split; [assumption|]. split; [assumption|].
  intros Hhalf Htwo Hscores. rewrite Htwo, (ranked_scenario Hhalf Hscores).
  split; [reflexivity|].
  unfold scored, scenario_scores in *.
  inversion Hscores as [|c1 s1 l1 t1 E1 R1]; subst.
  inversion R1 as [|c2 s2 l2 t2 E2 R2]; subst.
  simpl. repeat constructor; assumption.
Qed.

(** * Batch loading *)

Lemma inserted_app (l1 l2 : list Call) : inserted (l1 ++ l2) = inserted l1 ++ inserted l2.
Proof.
  induction l1 as [|c l1 IH]; simpl; trivial.
  destruct c; trivial. now rewrite IH, app_assoc.
Qed.

Lemma ingest_run_refl (app : RAGApplication D C) : ingest_run app app [].
Proof. unfold ingest_run, made_calls. rewrite app_nil_r. repeat split. Qed.

Lemma ingest_run_trans (app app1 app2 : RAGApplication D C) (new1 new2 : list Call) :
  ingest_run app app1 new1 -> ingest_run app1 app2 new2 ->
  ingest_run app app2 (new1 ++ new2).
Proof.
  unfold ingest_run, made_calls.
  intros (Hc1 & Hi1 & Hk1 & Hl1 & He1) (Hc2 & Hi2 & Hk2 & Hl2 & He2).
  repeat split; try congruence.
  - now rewrite Hc2, Hc1, app_assoc.
  - now rewrite forallb_app, Hi1, Hi2.
Qed.

Lemma chunk_of_mapi_from (embeddings : list Vector) (l : list Chunk.t) (i : nat) :
  map chunk_of
    (mapi_from i
       (fun chunk index =>
          InsertChunkData.mk (Chunk.pageContent chunk) (nth_error embeddings index)
            (Chunk.metadata chunk)) l)
  = l.
Proof.
  revert i. induction l as [|[pc md] l IH]; intros i; simpl; trivial.
  now rewrite IH.
Qed.

Lemma mapi_from_length (A B : Type) (f : A -> nat -> B) (l : list A) (i : nat) :
  List.length (mapi_from i f l) = List.length l.
Proof.
  revert i. induction l as [|x l IH]; intros i; simpl; trivial. now rewrite IH.
Qed.

Lemma batchLoadEmbeddings_run (loaderUniqueId : string) (formattedChunks : list Chunk.t)
    (app : RAGApplication D C) :
  insert_contract -> embeds (embedding app) ->
  exists app' new,
    batchLoadEmbeddings loaderUniqueId formattedChunks app
    = (Ok (List.length formattedChunks), app')
    /\ ingest_run app app' new
    /\ map chunk_of (inserted new) = formattedChunks
    /\ vector_count app' = vector_count app + List.length formattedChunks.
Proof.
  intros Hins Hemb. unfold batchLoadEmbeddings.
  destruct formattedChunks as [|chunk rest].
  - simpl. exists app, []. unfold ret, vector_count.
    split; [reflexivity|]. split; [apply ingest_run_refl|]. split; [reflexivity | lia].
  - set (fc := chunk :: rest).
    replace (List.length fc =? 0) with false by reflexivity.
    unfold embedChunks, bind, this, record, await, vectorDb_call. simpl calls.
    destruct (Hemb (map Chunk.pageContent fc)) as (vectors & Hv).
    rewrite Hv. cbn [vectorDb with_calls calls].
    set (rows := mapi _ fc).
    destruct (Hins rows (vectorDb app)) as (d' & Hd & Hcount).
    rewrite Hd.
    assert (Hrows : List.length rows = List.length fc)
      by (unfold rows, mapi; apply mapi_from_length).
    eexists. exists [EmbedDocuments (map Chunk.pageContent fc); DbInsertChunks rows].
    split; [now rewrite Hrows|]. split; [|split].
    + unfold ingest_run, made_calls. simpl. rewrite <- app_assoc. repeat split.
    + cbn [inserted]. rewrite app_nil_r. exact (chunk_of_mapi_from vectors fc 0).
    + unfold vector_count. simpl. now rewrite Hcount, Hrows.
Qed.

Lemma batchLoadChunks_loop_run (uniqueId : string) (incrementalGenerator : list Chunk.t) :
  forall (i newInserts : nat) (formattedChunks : list Chunk.t) (app : RAGApplication D C),
  insert_contract -> embeds (embedding app) ->
  exists app' new newInserts' formattedChunks' q,
    batchLoadChunks_loop uniqueId incrementalGenerator i (List.length formattedChunks)
      newInserts formattedChunks app
    = (Ok (newInserts', formattedChunks'), app')
    /\ ingest_run app app' new
    /\ map chunk_of (inserted new) ++ formattedChunks'
       = formattedChunks ++ mapi_from i (format_at uniqueId) incrementalGenerator
    /\ newInserts' + List.length formattedChunks'
       = newInserts + List.length formattedChunks + List.length incrementalGenerator
    /\ vector_count app' + List.length formattedChunks'
       = vector_count app + List.length formattedChunks + List.length incrementalGenerator
    /\ List.length formattedChunks + List.length incrementalGenerator
       = q * DEFAULT_INSERT_BATCH_SIZE + List.length formattedChunks'
    /\ (List.length formattedChunks < DEFAULT_INSERT_BATCH_SIZE ->
        List.length formattedChunks' < DEFAULT_INSERT_BATCH_SIZE).
Proof.
  induction incrementalGenerator as [|chunk rest IH];
    intros i newInserts formattedChunks app Hins Hemb.
  - simpl. exists app, [], newInserts, formattedChunks, 0. unfold ret.
    split; [reflexivity|]. split; [apply ingest_run_refl|].
    split; [simpl; now rewrite app_nil_r|]. repeat split; lia.
  - cbn [batchLoadChunks_loop].
    set (fc := formattedChunks ++ [formatChunk uniqueId i chunk]).
    assert (Hfc : S (List.length formattedChunks) = List.length fc)
      by (unfold fc; rewrite length_app; simpl; lia).
    destruct (mod_is_zero (S (List.length formattedChunks)) DEFAULT_INSERT_BATCH_SIZE)
      eqn:Hflush.
    + destruct (batchLoadEmbeddings_run uniqueId fc app Hins Hemb)
        as (app1 & new1 & Hrun1 & Hing1 & Hrows1 & Hcount1).
      assert (Hemb1 : embeds (embedding app1)).
      { destruct Hing1 as (_ & _ & _ & _ & He). now rewrite He. }
      destruct (IH (S i) (newInserts + List.length fc) [] app1 Hins Hemb1)
        as (app' & new2 & n' & fc' & q & Hrun2 & Hing2 & Hrows2 & Hn & Hcount2 & Hq & Hlt).
      unfold mod_is_zero in Hflush.
      destruct DEFAULT_INSERT_BATCH_SIZE as [|b] eqn:HB; [discriminate|].
      apply Nat.eqb_eq in Hflush.
      exists app', (new1 ++ new2), n', fc', (S (List.length formattedChunks) / S b + q).
      split; [|split; [|repeat split]].
      * unfold bind. rewrite Hrun1. exact Hrun2.
      * eapply ingest_run_trans; eassumption.
      * rewrite inserted_app, map_app, <- app_assoc, Hrows2, Hrows1.
        simpl. unfold fc. rewrite <- app_assoc. reflexivity.
      * simpl in *. lia.
      * simpl in *. lia.
      * pose proof (Nat.div_mod_eq (S (List.length formattedChunks)) (S b)) as Hdm.
        rewrite Hflush in Hdm. simpl List.length in *. nia.
      * intros _. apply Hlt. simpl. lia.
    + rewrite Hfc.
      destruct (IH (S i) newInserts fc app Hins Hemb)
        as (app' & new & n' & fc' & q & Hrun & Hing & Hrows & Hn & Hcount & Hq & Hlt).
      exists app', new, n', fc', q.
      split; [assumption|]. split; [assumption|]. repeat split.
      * rewrite Hrows. unfold fc. rewrite <- app_assoc. reflexivity.
      * simpl. lia.
      * simpl. lia.
      * simpl. lia.
      * intros Hb. apply Hlt. rewrite <- Hfc.
        unfold mod_is_zero in Hflush.
        destruct DEFAULT_INSERT_BATCH_SIZE as [|b] eqn:HB; [lia|].
        apply Nat.eqb_neq in Hflush.
        destruct (Nat.eq_dec (S (List.length formattedChunks)) (S b)) as [Heq|Hne]; [|lia].
        exfalso. apply Hflush. rewrite Heq. apply Nat.Div0.mod_same.
Qed.

Lemma batchLoadChunks_run (uniqueId : string) (incrementalGenerator : list Chunk.t)
    (app : RAGApplication D C) :
  insert_contract -> embeds (embedding app) ->
  exists app' new formattedChunks,
    batchLoadChunks uniqueId incrementalGenerator app
    = (Ok (List.length incrementalGenerator, formattedChunks), app')
    /\ ingest_run app app' new
    /\ map chunk_of (inserted new) = mapi (format_at uniqueId) incrementalGenerator
    /\ vector_count app' = vector_count app + List.length incrementalGenerator
    /\ (0 < DEFAULT_INSERT_BATCH_SIZE ->
        List.length formattedChunks
        = List.length incrementalGenerator mod DEFAULT_INSERT_BATCH_SIZE)
    /\ (DEFAULT_INSERT_BATCH_SIZE = 0 ->
        List.length formattedChunks = List.length incrementalGenerator).
Proof.
  intros Hins Hemb.
  destruct (batchLoadChunks_loop_run uniqueId incrementalGenerator 0 0 [] app Hins Hemb)
    as (app1 & new1 & n1 & fc & q & Hrun1 & Hing1 & Hrows1 & Hn & Hcount1 & Hq & Hlt).
  assert (Hemb1 : embeds (embedding app1)).
  { destruct Hing1 as (_ & _ & _ & _ & He). now rewrite He. }
  destruct (batchLoadEmbeddings_run uniqueId fc app1 Hins Hemb1)
    as (app' & new2 & Hrun2 & Hing2 & Hrows2 & Hcount2).
  simpl in Hrun1, Hrows1, Hn, Hcount1, Hq, Hlt.
  exists app', (new1 ++ new2), fc.
  split; [|split; [|repeat split]].
  - unfold batchLoadChunks, bind. rewrite Hrun1. simpl. rewrite Hrun2.
    unfold ret. do 2 f_equal. f_equal. lia.
  - eapply ingest_run_trans; eassumption.
  - rewrite inserted_app, map_app, Hrows2. exact Hrows1.
  - lia.
  - intros HB. apply Nat.mod_unique with (q := q); [now apply Hlt | lia].
  - intros HB. rewrite HB in Hq. lia.
Qed.

Lemma addLoader_ingest_run (loader : BaseLoader) (app : RAGApplication D C) :
  insert_contract -> embeds (embedding app) -> cache_records ->
  exists app' new pending,
    addLoader_ingest loader app
    = (Ok {| entriesAdded := List.length (getChunks loader);
             uniqueId := getUniqueId loader |}, app')
    /\ made_calls app app' (new ++ closing_calls (cache app) loader pending)
    /\ forallb is_ingest_call new = true
    /\ map chunk_of (inserted new) = mapi (format_at (getUniqueId loader)) (getChunks loader)
    /\ vector_count app' = vector_count app + List.length (getChunks loader)
    /\ (0 < DEFAULT_INSERT_BATCH_SIZE ->
        pending = List.length (getChunks loader) mod DEFAULT_INSERT_BATCH_SIZE)
    /\ (DEFAULT_INSERT_BATCH_SIZE = 0 -> pending = List.length (getChunks loader))
    /\ cache app' = cache_after_record (cache app) (getUniqueId loader) pending
    /\ loaders app' = without_loader (getUniqueId loader) (loaders app) ++ [loader].
Proof.
  intros Hins Hemb Hrec.
  destruct (batchLoadChunks_run (getUniqueId loader) (getChunks loader) app Hins Hemb)
    as (app1 & new & fc & Hrun & Hing & Hrows & Hcount & Hmod & Hzero).
  destruct Hing as (Hcalls1 & Hingest & Hcache1 & Hloaders1 & _).
  unfold made_calls in Hcalls1.
  exists
    (with_loaders (without_loader (getUniqueId loader) (loaders app) ++ [loader])
       (with_calls (calls app ++ new ++ closing_calls (cache app) loader (List.length fc))
          (with_cache (cache_after_record (cache app) (getUniqueId loader) (List.length fc))
             app1))),
    new, (List.length fc).
  split; [|repeat split; trivial].
  unfold addLoader_ingest. unfold bind at 1. rewrite Hrun.
  unfold bind, this, cache_call, record, set_loaders, ret, closing_calls, cache_after_record,
    without_loader, with_loaders, with_calls, with_cache.
  cbn [fst snd]. rewrite Hcache1.
  destruct (cache app) as [c|] eqn:Hc.
  - pose proof (Hrec (getUniqueId loader) (List.length fc) c) as Hadd.
    destruct (BaseCache.addLoader (getUniqueId loader) (List.length fc) c) as [r c'].
    simpl in Hadd. subst r. cbn.
    destruct (canIncrementallyLoad loader); cbn;
      rewrite Hcalls1, Hloaders1, <- ?app_assoc; reflexivity.
  - cbn. destruct (canIncrementallyLoad loader); cbn;
      rewrite ?Hcalls1, ?Hloaders1, ?Hcache1, <- ?app_assoc, ?app_nil_r; reflexivity.
Qed.

(** * Registering a loader *)

Lemma with_calls_twice (l l' : list Call) (app : RAGApplication D C) :
  with_calls l (with_calls l' app) = with_calls l app.
Proof. reflexivity. Qed.

Lemma addLoader_fresh (loader : BaseLoader) (app : RAGApplication D C) :
  no_prior_record (getUniqueId loader) app ->
  addLoader loader app
  = addLoader_ingest loader
      (with_calls (calls app ++ opening_calls (cache app) (getUniqueId loader)) app).
Proof.
  unfold no_prior_record, opening_calls. intros Hfresh.
  unfold addLoader. unfold bind at 1 2 3, record, this. cbn [cache with_calls calls fst snd].
  destruct (cache app) as [c|].
  - unfold bind at 1 2, record, await. cbn [cache with_calls calls]. rewrite Hfresh.
    unfold ret at 1. rewrite <- app_assoc. reflexivity.
  - reflexivity.
Qed.

Lemma addLoader_again (loader : BaseLoader) (app app1 : RAGApplication D C) (c : C)
    (previousChunkCount : nat) (deleteResult : bool) :
  cache app = Some c ->
  BaseCache.hasLoader (getUniqueId loader) c = Ok true ->
  BaseCache.getLoader (getUniqueId loader) c = Ok {| chunkCount := previousChunkCount |} ->
  0 < previousChunkCount ->
  deleteLoader (getUniqueId loader) true
    (with_calls
       (calls app ++ [LoaderInit (getUniqueId loader); CacheHasLoader (getUniqueId loader);
                      CacheGetLoader (getUniqueId loader)]) app)
  = (Ok deleteResult, app1) ->
  addLoader loader app = addLoader_ingest loader app1.
Proof.
  intros Hc Hhas Hget Hpos Hdel.
  unfold addLoader. unfold bind at 1 2 3, record, this. cbn [cache with_calls calls fst snd].
  rewrite Hc. unfold bind at 1 2, record, await. cbn [cache with_calls calls]. rewrite Hhas.
  unfold bind at 1 2. cbn [cache with_calls calls]. rewrite Hget. cbn [chunkCount].
  apply Nat.ltb_lt in Hpos. rewrite Hpos.
  rewrite !with_calls_twice, <- !app_assoc. cbn [List.app].
  unfold bind at 1 2. rewrite Hdel. reflexivity.
Qed.

(** C6: for a loader that yields N chunks and has no record in the cache,
    under the contract that [insertChunks] inserts all it is given and
    returns their number (and with an embedding provider and a cache that
    answer), [addLoader] returns [entriesAdded = N] and the vector count of
    the store grows by exactly N. *)
Theorem addLoader_fresh_adds_all (loader : BaseLoader) (app : RAGApplication D C) :
  insert_contract -> embeds (embedding app) -> cache_records ->
  no_prior_record (getUniqueId loader) app ->
  exists app',
    addLoader loader app
    = (Ok {| entriesAdded := List.length (getChunks loader);
             uniqueId := getUniqueId loader |}, app')
    /\ vector_count app' = vector_count app + List.length (getChunks loader).
Proof.
  intros Hins Hemb Hrec Hfresh. rewrite (addLoader_fresh loader app Hfresh).
  set (app0 := with_calls _ app).
  destruct (addLoader_ingest_run loader app0 Hins Hemb Hrec)
    as (app' & new & pending & Hrun & _ & _ & _ & Hcount & _).
  exists app'. split; assumption.
Qed.

(** C1, what the code does: for a loader without prior record that yields N
    chunks, with a positive batch size B, the one [addLoader] call that
    reaches the cache carries the size of the last batch, [N mod B], and
    that is what the cache is left with; it differs from N as soon as
    B <= N. *)
Theorem addLoader_records_last_batch_size (loader : BaseLoader) (app : RAGApplication D C)
    (c : C) :
  0 < DEFAULT_INSERT_BATCH_SIZE ->
  insert_contract -> embeds (embedding app) -> cache_records ->
  cache app = Some c ->
  BaseCache.hasLoader (getUniqueId loader) c = Ok false ->
  let N := List.length (getChunks loader) in
  exists app' new,
    addLoader loader app
    = (Ok {| entriesAdded := N; uniqueId := getUniqueId loader |}, app')
    /\ made_calls app app' new
    /\ (forall count, In (CacheAddLoader (getUniqueId loader) count) new
                      <-> count = N mod DEFAULT_INSERT_BATCH_SIZE)
    /\ cache app'
       = Some (snd (BaseCache.addLoader (getUniqueId loader)
                      (N mod DEFAULT_INSERT_BATCH_SIZE) c))
    /\ (DEFAULT_INSERT_BATCH_SIZE <= N -> N mod DEFAULT_INSERT_BATCH_SIZE <> N).
Proof.
  intros HB Hins Hemb Hrec Hc Hhas N.
  assert (Hfresh : no_prior_record (getUniqueId loader) app)
    by (unfold no_prior_record; now rewrite Hc).
  rewrite (addLoader_fresh loader app Hfresh).
  set (app0 := with_calls _ app).
  destruct (addLoader_ingest_run loader app0 Hins Hemb Hrec)
    as (app' & new & pending & Hrun & Hcalls & Hingest & _ & _ & Hmod & _ & Hcache & _).
  specialize (Hmod HB). fold N in Hmod. subst pending.
  exists app', (opening_calls (cache app) (getUniqueId loader) ++ new
                ++ closing_calls (cache app0) loader (N mod DEFAULT_INSERT_BATCH_SIZE)).
  split; [exact Hrun|]. split; [|split; [|split]].
  - unfold made_calls in *. rewrite Hcalls. unfold app0. cbn [calls with_calls].
    now rewrite <- app_assoc.
  - intros count. unfold app0. cbn [cache with_calls]. rewrite Hc.
    unfold opening_calls, closing_calls. rewrite !in_app_iff. split.
    + intros [Hin | [Hin | Hin]].
      * simpl in Hin. intuition discriminate.
      * rewrite forallb_forall in Hingest. apply Hingest in Hin. discriminate.
      * destruct (canIncrementallyLoad loader); simpl in Hin;
          intuition (try discriminate; congruence).
    + intros ->. right. right. left. now left.
  - rewrite Hcache. unfold app0. cbn [cache with_calls]. now rewrite Hc.
  - intros HN Heq. pose proof (Nat.mod_upper_bound N DEFAULT_INSERT_BATCH_SIZE). lia.
Qed.

Lemma inserted_cache_removal (this_cache : option C) (deleteResult : bool) (id : string) :
  inserted (cache_removal this_cache deleteResult id) = [].
Proof. unfold cache_removal. now destruct this_cache, deleteResult. Qed.

Lemma inserted_closing_calls (this_cache : option C) (loader : BaseLoader) (pending : nat) :
  inserted (closing_calls this_cache loader pending) = [].
Proof.
  unfold closing_calls. now destruct this_cache, (canIncrementallyLoad loader).
Qed.

Lemma inserted_opening_calls (this_cache : option C) (id : string) :
  inserted (opening_calls this_cache id) = [].
Proof. unfold opening_calls. now destruct this_cache. Qed.

(** C4, as the code has it: when the cache holds a record with a positive
    count P for the loader id, [addLoader] first calls [deleteKeys] for that
    id, whatever P is, and only then embeds and inserts the M chunks of the
    loader, without any further deletion.  If that [deleteKeys] removes Q
    entries, the vector count changes by M - Q; this is M - P when the store
    held exactly P entries for the id, Q = P. *)
Theorem addLoader_again_replaces (loader : BaseLoader) (app : RAGApplication D C) (c : C)
    (P Q : nat) (deleteResult : bool) (d1 : D) :
  insert_contract -> embeds (embedding app) -> cache_records ->
  cache app = Some c ->
  BaseCache.hasLoader (getUniqueId loader) c = Ok true ->
  BaseCache.getLoader (getUniqueId loader) c = Ok {| chunkCount := P |} ->
  0 < P ->
  BaseDb.deleteKeys (getUniqueId loader) (vectorDb app) = (Ok deleteResult, d1) ->
  BaseDb.getVectorCount d1 + Q = vector_count app ->
  (deleteResult = true -> fst (BaseCache.deleteLoader (getUniqueId loader) c) = Ok tt) ->
  let M := List.length (getChunks loader) in
  exists app' new,
    addLoader loader app
    = (Ok {| entriesAdded := M; uniqueId := getUniqueId loader |}, app')
    /\ made_calls app app'
         ([LoaderInit (getUniqueId loader); CacheHasLoader (getUniqueId loader);
           CacheGetLoader (getUniqueId loader); DbDeleteKeys (getUniqueId loader)] ++ new)
    /\ forallb (fun call => negb (is_deletion call)) new = true
    /\ List.length (inserted new) = M
    /\ (Z.of_nat (vector_count app') - Z.of_nat (vector_count app)
        = Z.of_nat M - Z.of_nat Q)%Z
    /\ (Q = P ->
        (Z.of_nat (vector_count app') - Z.of_nat (vector_count app)
         = Z.of_nat M - Z.of_nat P)%Z).
Proof.
  intros Hins Hemb Hrec Hc Hhas Hget Hpos Hdel HQ Hrm M.
  set (id := getUniqueId loader) in *.
  set (app0 := with_calls (calls app ++ [LoaderInit id; CacheHasLoader id; CacheGetLoader id])
                 app).
  assert (Hrm0 : cache_removal_completes (cache app0) deleteResult id)
    by (unfold app0; cbn [cache with_calls]; now rewrite Hc).
  destruct (deleteLoader_confirmed_run id app0 Hdel Hrm0)
    as (app1 & Hrun1 & Hcalls1 & Hdb1 & Hcache1 & _ & Hemb1).
  rewrite (addLoader_again loader app Hc Hhas Hget Hpos Hrun1).
  assert (Hemb' : embeds (embedding app1)) by (now rewrite Hemb1).
  destruct (addLoader_ingest_run loader app1 Hins Hemb' Hrec)
    as (app' & new & pending & Hrun & Hcalls & Hingest & Hrows & Hcount & _).
  assert (Hnet : vector_count app' + Q = vector_count app + M).
  { rewrite Hcount. unfold vector_count at 1. rewrite Hdb1. fold M. lia. }
  exists app', (cache_removal (cache app0) deleteResult id ++ new
                ++ closing_calls (cache app1) loader pending).
  split; [exact Hrun|]. split; [|split; [|split; [|split]]].
  - unfold made_calls in *. rewrite Hcalls, Hcalls1. unfold app0. cbn [calls with_calls].
    rewrite <- !app_assoc. reflexivity.
  - rewrite !forallb_app. apply andb_true_iff. split; [|apply andb_true_iff; split].
    + unfold cache_removal. now destruct (cache app0), deleteResult.
    + rewrite forallb_forall in *. intros call Hcall. apply Hingest in Hcall.
      now destruct call.
    + unfold closing_calls. now destruct (cache app1), (canIncrementallyLoad loader).
  - rewrite !inserted_app, inserted_cache_removal, inserted_closing_calls, app_nil_r.
    cbn [List.app]. rewrite <- (length_map chunk_of), Hrows.
    unfold mapi. apply mapi_from_length.
  - lia.
  - intros <-. lia.
Qed.

(** * Chunk ids *)

Lemma formatChunk_id (uniqueId : string) (j : nat) (chunk : Chunk.t) :
  metadata_get (Chunk.metadata (formatChunk uniqueId j chunk)) "id"
  = Some (uniqueId ++ "_" ++ string_of_nat j)%string.
Proof.
  unfold formatChunk, metadata_get, metadata_set. cbn [Chunk.metadata].
  rewrite (JsMap_get_set _ String.eqb_eq). now rewrite String.eqb_refl.
Qed.

Lemma formatted_ids (uniqueId : string) (gen : list Chunk.t) (i : nat) :
  map (fun chunk => metadata_get (Chunk.metadata chunk) "id")
    (mapi_from i (format_at uniqueId) gen)
  = map (fun j => Some (uniqueId ++ "_" ++ string_of_nat j)%string) (seq i (List.length gen)).
Proof.
  revert i. induction gen as [|chunk gen IH]; intros i; simpl; trivial.
  rewrite IH. f_equal. apply formatChunk_id.
Qed.

Lemma inserted_ids (uniqueId : string) (gen : list Chunk.t) (rows : list InsertChunkData.t) :
  map chunk_of rows = mapi (format_at uniqueId) gen ->
  map id_of rows = run_ids uniqueId (List.length gen).
Proof.
  intros Hrows. unfold run_ids. rewrite <- formatted_ids. fold (mapi (format_at uniqueId) gen).
  rewrite <- Hrows, map_map. reflexivity.
Qed.

Lemma incrementalLoader_run (uniqueId : string) (incrementalGenerator : list Chunk.t)
    (app : RAGApplication D C) :
  insert_contract -> embeds (embedding app) ->
  exists app' new,
    incrementalLoader uniqueId incrementalGenerator app = (Ok tt, app')
    /\ ingest_run app app' new
    /\ map chunk_of (inserted new) = mapi (format_at uniqueId) incrementalGenerator
    /\ vector_count app' = vector_count app + List.length incrementalGenerator.
Proof.
  intros Hins Hemb.
  destruct (batchLoadChunks_run uniqueId incrementalGenerator app Hins Hemb)
    as (app' & new & fc & Hrun & Hing & Hrows & Hcount & _).
  exists app', new. split; [|split; [|split]]; trivial.
  unfold incrementalLoader, bind. now rewrite Hrun.
Qed.

(** C10: the index of [batchLoadChunks] starts at 0 in every run.  The rows
    inserted by the first ingestion of a loader carry the ids
    ["<uniqueLoaderId>_0"], ["<uniqueLoaderId>_1"], ... and the rows inserted
    by a later incremental run for the same loader carry the same ids from 0
    on: at every position both runs have, the ids are equal. *)
Theorem chunk_ids_restart_in_every_run (loader : BaseLoader)
    (incrementalGenerator : list Chunk.t) (app later : RAGApplication D C) :
  insert_contract -> cache_records ->
  embeds (embedding app) -> embeds (embedding later) ->
  no_prior_record (getUniqueId loader) app ->
  exists app' new later' new',
    addLoader loader app
    = (Ok {| entriesAdded := List.length (getChunks loader);
             uniqueId := getUniqueId loader |}, app')
    /\ made_calls app app' new
    /\ incrementalLoader (getUniqueId loader) incrementalGenerator later = (Ok tt, later')
    /\ made_calls later later' new'
    /\ map id_of (inserted new)
       = run_ids (getUniqueId loader) (List.length (getChunks loader))
    /\ map id_of (inserted new')
       = run_ids (getUniqueId loader) (List.length incrementalGenerator)
    /\ forall j, j < List.length (getChunks loader) ->
                 j < List.length incrementalGenerator ->
         nth_error (map id_of (inserted new')) j
         = Some (Some (getUniqueId loader ++ "_" ++ string_of_nat j)%string)
         /\ nth_error (map id_of (inserted new)) j
            = nth_error (map id_of (inserted new')) j.
Proof.
  intros Hins Hrec Hemb Hemb2 Hfresh.
  set (id := getUniqueId loader) in *.
  pose proof (addLoader_fresh loader app Hfresh) as Hadd. fold id in Hadd.
  set (app0 := with_calls _ app) in Hadd.
  destruct (addLoader_ingest_run loader app0 Hins Hemb Hrec)
    as (app' & new & pending & Hrun & Hcalls & _ & Hrows & _).
  destruct (incrementalLoader_run id incrementalGenerator later Hins Hemb2)
    as (later' & new' & Hrun' & (Hcalls' & _) & Hrows' & _).
  fold id in Hrows.
  apply inserted_ids in Hrows. apply inserted_ids in Hrows'.
  exists app', (opening_calls (cache app) id ++ new ++ closing_calls (cache app0) loader pending),
    later', new'.
  assert (Hids : map id_of
                   (inserted (opening_calls (cache app) id ++ new
                              ++ closing_calls (cache app0) loader pending))
                 = run_ids id (List.length (getChunks loader))).
  { rewrite !inserted_app, inserted_opening_calls, inserted_closing_calls, app_nil_r.
    exact Hrows. }
  split; [now rewrite Hadd|]. split; [|split; [|split; [|split; [|split]]]]; trivial.
  - unfold made_calls in *. rewrite Hcalls. unfold app0. cbn [calls with_calls].
    now rewrite <- app_assoc.
  - intros j Hj Hj'. rewrite Hids, Hrows'. unfold run_ids.
    rewrite !nth_error_map, !nth_error_seq.
    destruct (Nat.ltb_spec j (List.length incrementalGenerator)); [|lia].
    destruct (Nat.ltb_spec j (List.length (getChunks loader))); [|lia].
    split; reflexivity.
Qed.

(** * What a run leaves alone *)

Lemma kept_refl (app : RAGApplication D C) : kept app app.
Proof. repeat split. Qed.

Lemma kept_trans (app app1 app2 : RAGApplication D C) :
  kept app app1 -> kept app1 app2 -> kept app app2.
Proof.
  unfold kept. intros (Hc1 & Hl1 & He1) (Hc2 & Hl2 & He2).
  repeat split; congruence.
Qed.

Lemma batchLoadEmbeddings_kept (loaderUniqueId : string) (formattedChunks : list Chunk.t)
    (app : RAGApplication D C) :
  kept app (snd (batchLoadEmbeddings loaderUniqueId formattedChunks app)).
Proof.
  unfold batchLoadEmbeddings.
  destruct (List.length formattedChunks =? 0); [apply kept_refl|].
  unfold embedChunks, bind, this, record, await, vectorDb_call. cbn [embedding].
  destruct (embedDocuments (embedding app) (map Chunk.pageContent formattedChunks));
    [|repeat split].
  cbn [vectorDb with_calls calls].
  destruct (BaseDb.insertChunks _ (vectorDb app)). repeat split.
Qed.

Lemma batchLoadChunks_loop_kept (uniqueId : string) (incrementalGenerator : list Chunk.t) :
  forall (i batchSize newInserts : nat) (formattedChunks : list Chunk.t)
         (app : RAGApplication D C),
  kept app
    (snd (batchLoadChunks_loop uniqueId incrementalGenerator i batchSize newInserts
            formattedChunks app)).
Proof.
  induction incrementalGenerator as [|chunk rest IH];
    intros i batchSize newInserts formattedChunks app.
  - apply kept_refl.
  - cbn [batchLoadChunks_loop].
    destruct (mod_is_zero (S batchSize) DEFAULT_INSERT_BATCH_SIZE); [|apply IH].
    unfold bind.
    pose proof (batchLoadEmbeddings_kept uniqueId
                  (formattedChunks ++ [formatChunk uniqueId i chunk]) app) as Hflush.
    destruct (batchLoadEmbeddings uniqueId
                (formattedChunks ++ [formatChunk uniqueId i chunk]) app) as [[n|e] app1].
    + eapply kept_trans; [exact Hflush | apply IH].
    + exact Hflush.
Qed.

Lemma batchLoadChunks_kept (uniqueId : string) (incrementalGenerator : list Chunk.t)
    (app : RAGApplication D C) :
  kept app (snd (batchLoadChunks uniqueId incrementalGenerator app)).
Proof.
  unfold batchLoadChunks, bind.
  pose proof (batchLoadChunks_loop_kept uniqueId incrementalGenerator 0 0 0 [] app) as Hloop.
  destruct (batchLoadChunks_loop uniqueId incrementalGenerator 0 0 0 [] app)
    as [[st|e] app1]; [|exact Hloop].
  pose proof (batchLoadEmbeddings_kept uniqueId (snd st) app1) as Hlast.
  destruct (batchLoadEmbeddings uniqueId (snd st) app1) as [[n|e] app2];
    eapply kept_trans; eassumption.
Qed.

(** X9: The cache record is written by [addLoader] only: an incremental run adds
    its chunks to the vector store and leaves the cache and the tracked
    loaders as they were, so the recorded count no longer tells how many
    vectors the loader has in the store. *)
Theorem incrementalLoader_leaves_record (uniqueId : string)
    (incrementalGenerator : list Chunk.t) (app : RAGApplication D C) :
  insert_contract -> embeds (embedding app) ->
  exists app',
    incrementalLoader uniqueId incrementalGenerator app = (Ok tt, app')
    /\ vector_count app' = vector_count app + List.length incrementalGenerator
    /\ cache app' = cache app
    /\ loaders app' = loaders app.
Proof.
  intros Hins Hemb.
  destruct (incrementalLoader_run uniqueId incrementalGenerator app Hins Hemb)
    as (app' & new & Hrun & (_ & _ & Hcache & Hloaders & _) & _ & Hcount).
  exists app'. repeat split; assumption.
Qed.

(** * The size of a batch *)

Lemma batchLoadEmbeddings_batches (loaderUniqueId : string) (formattedChunks : list Chunk.t)
    (app : RAGApplication D C) (B : nat) :
  List.length formattedChunks <= B ->
  exists new,
    calls (snd (batchLoadEmbeddings loaderUniqueId formattedChunks app)) = calls app ++ new
    /\ Forall (batch_within B) new.
Proof.
  intros HB. unfold batchLoadEmbeddings.
  destruct formattedChunks as [|chunk rest].
  - exists []. simpl. rewrite app_nil_r. split; [reflexivity | constructor].
  - set (fc := chunk :: rest) in *.
    replace (List.length fc =? 0) with false by reflexivity.
    assert (Hpos : 1 <= List.length fc) by (unfold fc; simpl; lia).
    unfold embedChunks, bind, this, record, await, vectorDb_call. cbn [embedding].
    destruct (embedDocuments (embedding app) (map Chunk.pageContent fc)) as [vectors|e].
    + cbn [vectorDb with_calls calls].
      set (rows := mapi _ fc).
      assert (Hrows : List.length rows = List.length fc)
        by (unfold rows, mapi; apply mapi_from_length).
      destruct (BaseDb.insertChunks rows (vectorDb app)) as [r d].
      exists [EmbedDocuments (map Chunk.pageContent fc); DbInsertChunks rows].
      cbn [snd calls with_vectorDb with_calls]. rewrite <- app_assoc. split; [reflexivity|].
      constructor; [unfold batch_within; rewrite length_map; lia|].
      constructor; [unfold batch_within; rewrite Hrows; lia | constructor].
    + exists [EmbedDocuments (map Chunk.pageContent fc)].
      split; [reflexivity|].
      constructor; [unfold batch_within; rewrite length_map; lia | constructor].
Qed.

Lemma batchLoadChunks_loop_batches (uniqueId : string) (incrementalGenerator : list Chunk.t) :
  forall (i newInserts : nat) (formattedChunks : list Chunk.t) (app : RAGApplication D C),
  List.length formattedChunks < DEFAULT_INSERT_BATCH_SIZE ->
  exists new,
    calls (snd (batchLoadChunks_loop uniqueId incrementalGenerator i
                  (List.length formattedChunks) newInserts formattedChunks app))
    = calls app ++ new
    /\ Forall (batch_within DEFAULT_INSERT_BATCH_SIZE) new
    /\ forall st,
         fst (batchLoadChunks_loop uniqueId incrementalGenerator i
                (List.length formattedChunks) newInserts formattedChunks app) = Ok st ->
         List.length (snd st) < DEFAULT_INSERT_BATCH_SIZE.
Proof.
  induction incrementalGenerator as [|chunk rest IH];
    intros i newInserts formattedChunks app Hlt.
  - exists []. simpl. rewrite app_nil_r. split; [reflexivity|]. split; [constructor|].
    intros st Hst. inversion Hst. subst. exact Hlt.
  - cbn [batchLoadChunks_loop].
    set (fc := formattedChunks ++ [formatChunk uniqueId i chunk]).
    assert (Hfc : S (List.length formattedChunks) = List.length fc)
      by (unfold fc; rewrite length_app; simpl; lia).
    destruct (mod_is_zero (S (List.length formattedChunks)) DEFAULT_INSERT_BATCH_SIZE)
      eqn:Hflush.
    + assert (Hle : List.length fc <= DEFAULT_INSERT_BATCH_SIZE) by lia.
      destruct (batchLoadEmbeddings_batches uniqueId fc app Hle) as (new1 & Hcalls1 & Hb1).
      unfold bind.
      destruct (batchLoadEmbeddings uniqueId fc app) as [[n|e] app1].
      * assert (Hzero : List.length (@nil Chunk.t) < DEFAULT_INSERT_BATCH_SIZE)
          by (simpl; lia).
        destruct (IH (S i) (newInserts + n) [] app1 Hzero) as (new2 & Hcalls2 & Hb2 & Hst).
        exists (new1 ++ new2). cbn [snd] in Hcalls1. simpl List.length in *.
        split; [now rewrite Hcalls2, Hcalls1, app_assoc|].
        split; [now apply Forall_app | exact Hst].
      * exists new1. split; [exact Hcalls1|]. split; [exact Hb1|]. discriminate.
    + rewrite Hfc. apply IH. rewrite <- Hfc.
      unfold mod_is_zero in Hflush.
      destruct DEFAULT_INSERT_BATCH_SIZE as [|b] eqn:HB; [lia|].
      apply Nat.eqb_neq in Hflush.
      destruct (Nat.eq_dec (S (List.length formattedChunks)) (S b)) as [Heq|Hne]; [|lia].
      exfalso. apply Hflush. rewrite Heq. apply Nat.Div0.mod_same.
Qed.

(** X1: With a positive batch size B, whatever the collaborators answer and
    however the run ends, every [embedDocuments] and every [insertChunks]
    call of [batchLoadChunks] carries at least one and at most B chunks. *)
Theorem batchLoadChunks_batches_bounded (uniqueId : string)
    (incrementalGenerator : list Chunk.t) (app : RAGApplication D C) :
  0 < DEFAULT_INSERT_BATCH_SIZE ->
  exists new,
    made_calls app (snd (batchLoadChunks uniqueId incrementalGenerator app)) new
    /\ Forall (batch_within DEFAULT_INSERT_BATCH_SIZE) new.
Proof.
  intros HB. unfold made_calls, batchLoadChunks, bind.
  assert (Hzero : List.length (@nil Chunk.t) < DEFAULT_INSERT_BATCH_SIZE) by (simpl; lia).
  destruct (batchLoadChunks_loop_batches uniqueId incrementalGenerator 0 0 [] app Hzero)
    as (new1 & Hcalls1 & Hb1 & Hst).
  simpl List.length in *.
  destruct (batchLoadChunks_loop uniqueId incrementalGenerator 0 0 0 [] app)
    as [[st|e] app1]; [|exists new1; split; assumption].
  cbn [fst snd] in *.
  assert (Hle : List.length (snd st) <= DEFAULT_INSERT_BATCH_SIZE)
    by (specialize (Hst st eq_refl); lia).
  destruct (batchLoadEmbeddings_batches uniqueId (snd st) app1 Hle) as (new2 & Hcalls2 & Hb2).
  exists (new1 ++ new2). split; [|now apply Forall_app].
  destruct (batchLoadEmbeddings uniqueId (snd st) app1) as [[n|e] app2];
    unfold ret; cbn [snd] in *; now rewrite Hcalls2, Hcalls1, app_assoc.
Qed.

(** * More on registering a loader *)

(** X4: A loader that yields nothing: the embedding provider and the vector
    store are not called at all, [entriesAdded] is 0 and the count recorded
    in the cache is 0. *)
Theorem addLoader_without_chunks (loader : BaseLoader) (app : RAGApplication D C) :
  getChunks loader = [] -> cache_records ->
  no_prior_record (getUniqueId loader) app ->
  exists app',
    addLoader loader app
    = (Ok {| entriesAdded := 0; uniqueId := getUniqueId loader |}, app')
    /\ made_calls app app'
         (opening_calls (cache app) (getUniqueId loader)
          ++ closing_calls (cache app) loader 0)
    /\ vectorDb app' = vectorDb app
    /\ cache app' = cache_after_record (cache app) (getUniqueId loader) 0.
Proof.
  intros Hempty Hrec Hfresh. rewrite (addLoader_fresh loader app Hfresh).
  unfold addLoader_ingest, batchLoadChunks. rewrite Hempty.
  unfold made_calls, closing_calls, cache_after_record.
  unfold bind, batchLoadChunks_loop, batchLoadEmbeddings, ret, this, cache_call, record,
    set_loaders.
  cbn [List.length Nat.eqb fst snd cache with_calls calls loaders with_cache with_loaders
       vectorDb plus].
  destruct (cache app) as [c|] eqn:Hc.
  - pose proof (Hrec (getUniqueId loader) 0 c) as Hadd.
    destruct (BaseCache.addLoader (getUniqueId loader) 0 c) as [r c'].
    simpl in Hadd. subst r.
    destruct (canIncrementallyLoad loader); eexists; (split; [reflexivity|]);
      cbn [cache with_calls calls loaders with_cache with_loaders vectorDb snd];
      rewrite <- ?app_assoc; repeat split.
  - destruct (canIncrementallyLoad loader); eexists; (split; [reflexivity|]);
      cbn [cache with_calls calls loaders with_cache with_loaders vectorDb snd];
      rewrite <- ?app_assoc, ?app_nil_r; repeat split; assumption.
Qed.

Lemma formatted_rows_stamped (uniqueId : string) (gen : list Chunk.t) :
  forall (i : nat) (rows : list InsertChunkData.t),
  map chunk_of rows = mapi_from i (format_at uniqueId) gen ->
  Forall2 (stamped uniqueId) rows gen.
Proof.
  induction gen as [|chunk gen IH]; intros i rows Hrows.
  - destruct rows; [constructor | discriminate].
  - destruct rows as [|row rows]; [discriminate|].
    simpl in Hrows. inversion Hrows as [[Hpc Hmd Hrest]].
    constructor; [|now apply (IH (S i))].
    unfold stamped. split; [assumption|]. rewrite Hmd.
    unfold metadata_get, metadata_set. split.
    + rewrite !(JsMap_get_set _ String.eqb_eq). now rewrite String.eqb_refl.
    + intros k Hk1 Hk2. rewrite !(JsMap_get_set _ String.eqb_eq).
      apply not_eq_sym in Hk1, Hk2.
      apply String.eqb_neq in Hk1, Hk2. now rewrite Hk1, Hk2.
Qed.

(** X3: Every row that [batchLoadChunks] stores is one of the loader's chunks, in
    order: it has the chunk's page content, carries the loader id under
    [uniqueLoaderId] (also when the loader set that key itself), and keeps
    the value of every other metadata key except [id]. *)
Theorem batchLoadChunks_stamps_chunks (uniqueId : string)
    (incrementalGenerator : list Chunk.t) (app : RAGApplication D C) :
  insert_contract -> embeds (embedding app) ->
  exists app' new pending,
    batchLoadChunks uniqueId incrementalGenerator app
    = (Ok (List.length incrementalGenerator, pending), app')
    /\ made_calls app app' new
    /\ Forall2 (stamped uniqueId) (inserted new) incrementalGenerator.
Proof.
  intros Hins Hemb.
  destruct (batchLoadChunks_run uniqueId incrementalGenerator app Hins Hemb)
    as (app' & new & pending & Hrun & (Hcalls & _) & Hrows & _).
  exists app', new, pending. split; [exact Hrun|]. split; [exact Hcalls|].
  exact (formatted_rows_stamped uniqueId incrementalGenerator 0 (inserted new) Hrows).
Qed.

Lemma batchLoadEmbeddings_fails (loaderUniqueId : string) (formattedChunks : list Chunk.t)
    (app : RAGApplication D C) (e : Error) :
  embedding_fails (embedding app) e -> formattedChunks <> [] ->
  batchLoadEmbeddings loaderUniqueId formattedChunks app
  = (Throw e,
     with_calls (calls app ++ [EmbedDocuments (map Chunk.pageContent formattedChunks)]) app).
Proof.
  intros Hfail Hne. unfold batchLoadEmbeddings.
  destruct formattedChunks as [|chunk rest]; [congruence|].
  set (fc := chunk :: rest).
  replace (List.length fc =? 0) with false by reflexivity.
  unfold embedChunks, bind, this, record, await. cbn [embedding with_calls].
  now rewrite Hfail.
Qed.

Lemma batchLoadChunks_loop_fails (uniqueId : string) (incrementalGenerator : list Chunk.t)
    (e : Error) :
  forall (i batchSize newInserts : nat) (formattedChunks : list Chunk.t)
         (app : RAGApplication D C),
  embedding_fails (embedding app) e ->
  batchLoadChunks_loop uniqueId incrementalGenerator i batchSize newInserts
    formattedChunks app
  = (Ok (newInserts,
         formattedChunks ++ mapi_from i (format_at uniqueId) incrementalGenerator), app)
  \/ exists texts,
       batchLoadChunks_loop uniqueId incrementalGenerator i batchSize newInserts
         formattedChunks app
       = (Throw e, with_calls (calls app ++ [EmbedDocuments texts]) app).
Proof.
  induction incrementalGenerator as [|chunk rest IH];
    intros i batchSize newInserts formattedChunks app Hfail.
  - left. simpl. now rewrite app_nil_r.
  - cbn [batchLoadChunks_loop mapi_from].
    destruct (mod_is_zero (S batchSize) DEFAULT_INSERT_BATCH_SIZE).
    + right. unfold bind.
      rewrite (batchLoadEmbeddings_fails uniqueId app Hfail)
        by (intros Hnil; apply app_eq_nil in Hnil; destruct Hnil; discriminate).
      eexists. reflexivity.
    + destruct (IH (S i) (S batchSize) newInserts
                  (formattedChunks ++ [formatChunk uniqueId i chunk]) app Hfail)
        as [Hok | Hthrow]; [left | right; exact Hthrow].
      rewrite Hok, <- app_assoc. reflexivity.
Qed.

(** X5: When the embedding provider throws on every request, [addLoader] of a
    loader that yields at least one chunk throws that exception: nothing is
    inserted into the vector store, the cache gets no record and the loader
    is not added to the tracked loaders. *)
Theorem addLoader_embedding_failure (loader : BaseLoader) (app : RAGApplication D C)
    (e : Error) :
  embedding_fails (embedding app) e -> getChunks loader <> [] ->
  no_prior_record (getUniqueId loader) app ->
  exists app' texts,
    addLoader loader app = (Throw e, app')
    /\ made_calls app app'
         (opening_calls (cache app) (getUniqueId loader) ++ [EmbedDocuments texts])
    /\ vectorDb app' = vectorDb app
    /\ cache app' = cache app
    /\ loaders app' = loaders app.
Proof.
  intros Hfail Hne Hfresh. rewrite (addLoader_fresh loader app Hfresh).
  set (app0 := with_calls _ app).
  assert (Hfail0 : embedding_fails (embedding app0) e) by exact Hfail.
  assert (Hbatch : exists texts,
             batchLoadChunks (getUniqueId loader) (getChunks loader) app0
             = (Throw e, with_calls (calls app0 ++ [EmbedDocuments texts]) app0)).
  { unfold batchLoadChunks, bind.
    destruct (batchLoadChunks_loop_fails (getUniqueId loader) (getChunks loader)
                0 0 0 [] app0 Hfail0) as [Hok | (texts & Hthrow)].
    - rewrite Hok. cbn [fst snd List.app].
      rewrite (batchLoadEmbeddings_fails (getUniqueId loader) app0 Hfail0).
      + eexists. reflexivity.
      + destruct (getChunks loader); [congruence | discriminate].
    - rewrite Hthrow. exists texts. reflexivity. }
  destruct Hbatch as (texts & Hbatch).
  exists (with_calls (calls app0 ++ [EmbedDocuments texts]) app0), texts.
  split; [|repeat split].
  - unfold addLoader_ingest. unfold bind at 1. now rewrite Hbatch.
  - unfold made_calls, app0. cbn [calls with_calls]. now rewrite <- app_assoc.
Qed.

(** * The tracked loaders *)

Lemma without_loader_twice (uniqueLoaderId : string) (l : list BaseLoader) :
  without_loader uniqueLoaderId (without_loader uniqueLoaderId l)
  = without_loader uniqueLoaderId l.
Proof.
  unfold without_loader. rewrite filter_twice. apply filter_ext.
  intros x. now destruct (negb _).
Qed.

Lemma without_loader_ids (uniqueLoaderId : string) (l : list BaseLoader) :
  ~ In uniqueLoaderId (map getUniqueId (without_loader uniqueLoaderId l)).
Proof.
  unfold without_loader. intros Hin. apply in_map_iff in Hin.
  destruct Hin as (x & Hid & Hx). apply filter_In in Hx.
  destruct Hx as [_ Hx]. rewrite Hid, String.eqb_refl in Hx. discriminate.
Qed.

Lemma without_loader_NoDup (uniqueLoaderId : string) (l : list BaseLoader) :
  NoDup (map getUniqueId l) ->
  NoDup (map getUniqueId (without_loader uniqueLoaderId l)).
Proof.
  unfold without_loader. induction l as [|x l IH]; simpl; intros Hnd; [constructor|].
  inversion Hnd as [|? ? Hx Hl]. subst.
  destruct (negb (String.eqb (getUniqueId x) uniqueLoaderId)); simpl; [|now apply IH].
  constructor; [|now apply IH].
  intros Hin. apply Hx. apply in_map_iff in Hin.
  destruct Hin as (y & Hid & Hy). apply filter_In in Hy.
  apply in_map_iff. exists y. split; [exact Hid | exact (proj1 Hy)].
Qed.

Lemma without_loader_absent (uniqueLoaderId : string) (l : list BaseLoader) :
  ~ In uniqueLoaderId (map getUniqueId l) -> without_loader uniqueLoaderId l = l.
Proof.
  unfold without_loader. induction l as [|x l IH]; simpl; intros Hnotin; trivial.
  destruct (String.eqb (getUniqueId x) uniqueLoaderId) eqn:Hx; simpl.
  - apply String.eqb_eq in Hx. exfalso. apply Hnotin. now left.
  - rewrite IH; [reflexivity|]. intros Hin. apply Hnotin. now right.
Qed.

Lemma deleteLoader_tracked (uniqueLoaderId : string) (app app1 : RAGApplication D C)
    (deleteResult : bool) :
  deleteLoader uniqueLoaderId true app = (Ok deleteResult, app1) ->
  loaders app1 = without_loader uniqueLoaderId (loaders app).
Proof.
  unfold deleteLoader, bind, vectorDb_call, this, set_loaders, ret, cache_call. simpl.
  destruct (BaseDb.deleteKeys uniqueLoaderId (vectorDb app)) as [[b|e] d]; [|discriminate].
  simpl. destruct (cache app) as [c|]; simpl.
  - destruct b; simpl.
    + destruct (BaseCache.deleteLoader uniqueLoaderId c) as [[u|e] c']; [|discriminate].
      simpl. intros Hrun. inversion Hrun. reflexivity.
    + intros Hrun. inversion Hrun. reflexivity.
  - intros Hrun. inversion Hrun. reflexivity.
Qed.

Lemma addLoader_split (loader : BaseLoader) (app : RAGApplication D C) :
  addLoader loader app
  = match addLoader_opening loader app with
    | (Ok _, app0) => addLoader_ingest loader app0
    | (Throw e, app0) => (Throw e, app0)
    end.
Proof.
  unfold addLoader, addLoader_opening, addLoader_ingest.
  unfold bind, record, this, await, ret. cbv beta. cbn [cache with_calls calls fst snd].
  destruct (cache app) as [c|]; reflexivity.
Qed.

Lemma addLoader_opening_tracked (loader : BaseLoader) (app app0 : RAGApplication D C) :
  addLoader_opening loader app = (Ok tt, app0) ->
  without_loader (getUniqueId loader) (loaders app0)
  = without_loader (getUniqueId loader) (loaders app).
Proof.
  unfold addLoader_opening.
  unfold bind, record, this, await, ret. cbv beta. cbn [cache with_calls calls fst snd].
  destruct (cache app) as [c|]; [|intros Hrun; inversion Hrun; reflexivity].
  destruct (BaseCache.hasLoader (getUniqueId loader) c) as [[|]|e];
    [|intros Hrun; inversion Hrun; reflexivity | discriminate].
  destruct (BaseCache.getLoader (getUniqueId loader) c) as [previous|e]; [|discriminate].
  destruct (0 <? chunkCount previous); [|intros Hrun; inversion Hrun; reflexivity].
  destruct (deleteLoader (getUniqueId loader) true _) as [[b|e] app1] eqn:Hdel;
    [|discriminate].
  intros Hrun. inversion Hrun. subst app0.
  rewrite (deleteLoader_tracked _ _ Hdel). cbn [loaders with_calls].
  apply without_loader_twice.
Qed.

Lemma addLoader_ingest_tracked (loader : BaseLoader) (app app' : RAGApplication D C)
    (added : AddLoaderReturn) :
  addLoader_ingest loader app = (Ok added, app') ->
  uniqueId added = getUniqueId loader
  /\ loaders app' = without_loader (getUniqueId loader) (loaders app) ++ [loader].
Proof.
  unfold addLoader_ingest. unfold bind at 1.
  pose proof (batchLoadChunks_kept (getUniqueId loader) (getChunks loader) app)
    as (_ & Hloaders & _).
  destruct (batchLoadChunks (getUniqueId loader) (getChunks loader) app)
    as [[st|e] app1]; [|discriminate].
  cbn [snd] in Hloaders.
  unfold bind, this, cache_call, record, set_loaders, ret. cbv beta.
  destruct (cache app1) as [c|].
  - destruct (BaseCache.addLoader (getUniqueId loader) (List.length (snd st)) c)
      as [[u|e] c']; [|discriminate].
    destruct (canIncrementallyLoad loader); intros Hrun; inversion Hrun;
      cbn [loaders with_loaders with_calls with_cache]; rewrite Hloaders; split; reflexivity.
  - destruct (canIncrementallyLoad loader); intros Hrun; inversion Hrun;
      cbn [loaders with_loaders with_calls with_cache]; rewrite Hloaders; split; reflexivity.
Qed.

(** X6: Whenever [addLoader] returns, the loader it was given is the last of the
    tracked loaders and the only one with its id; the other tracked loaders
    are kept in their order.  Tracked loaders with pairwise distinct ids stay
    that way. *)
Theorem addLoader_tracks_one_per_id (loader : BaseLoader) (app app' : RAGApplication D C)
    (added : AddLoaderReturn) :
  addLoader loader app = (Ok added, app') ->
  uniqueId added = getUniqueId loader
  /\ loaders app' = without_loader (getUniqueId loader) (loaders app) ++ [loader]
  /\ ~ In (getUniqueId loader)
         (map getUniqueId (without_loader (getUniqueId loader) (loaders app)))
  /\ (NoDup (map getUniqueId (loaders app)) -> NoDup (map getUniqueId (loaders app'))).
Proof.
  rewrite addLoader_split.
  destruct (addLoader_opening loader app) as [[[]|e] app0] eqn:Hopen; [|discriminate].
  intros Hrun. destruct (addLoader_ingest_tracked loader app0 Hrun) as [Hid Hloaders].
  rewrite (addLoader_opening_tracked loader app Hopen) in Hloaders.
  split; [exact Hid|]. split; [exact Hloaders|].
  split; [apply without_loader_ids|].
  intros Hnd. rewrite Hloaders, map_app. simpl.
  apply NoDup_app; [now apply without_loader_NoDup | repeat constructor; intros [] |].
  intros x Hx [Heq | []]. subst x. exact (without_loader_ids _ _ Hx).
Qed.

Lemma addLoader_zero_record (loader : BaseLoader) (app : RAGApplication D C) (c : C) :
  cache app = Some c ->
  BaseCache.hasLoader (getUniqueId loader) c = Ok true ->
  BaseCache.getLoader (getUniqueId loader) c = Ok {| chunkCount := 0 |} ->
  addLoader loader app
  = addLoader_ingest loader
      (with_calls
         (calls app ++ [LoaderInit (getUniqueId loader); CacheHasLoader (getUniqueId loader);
                        CacheGetLoader (getUniqueId loader)]) app).
Proof.
  intros Hc Hhas Hget. rewrite addLoader_split. unfold addLoader_opening.
  unfold bind, record, this, await, ret. cbv beta. cbn [cache with_calls calls fst snd].
  rewrite Hc, Hhas, Hget. cbn [chunkCount Nat.ltb Nat.leb].
  rewrite !with_calls_twice. cbn [calls with_calls]. rewrite <- !app_assoc. reflexivity.
Qed.

(** X7: A cache record with count 0 is taken as nothing to delete: [addLoader]
    does not call [deleteKeys], so whatever the store already holds for the
    loader id stays, and the vector count grows by the M new chunks. *)
Theorem addLoader_zero_record_deletes_nothing (loader : BaseLoader)
    (app : RAGApplication D C) (c : C) :
  insert_contract -> embeds (embedding app) -> cache_records ->
  cache app = Some c ->
  BaseCache.hasLoader (getUniqueId loader) c = Ok true ->
  BaseCache.getLoader (getUniqueId loader) c = Ok {| chunkCount := 0 |} ->
  exists app' new,
    addLoader loader app
    = (Ok {| entriesAdded := List.length (getChunks loader);
             uniqueId := getUniqueId loader |}, app')
    /\ made_calls app app' new
    /\ forallb (fun call => negb (is_deletion call)) new = true
    /\ vector_count app' = vector_count app + List.length (getChunks loader).
Proof.
  intros Hins Hemb Hrec Hc Hhas Hget.
  rewrite (addLoader_zero_record loader app Hc Hhas Hget).
  set (id := getUniqueId loader).
  set (app0 := with_calls (calls app ++ [LoaderInit id; CacheHasLoader id; CacheGetLoader id])
                 app).
  destruct (addLoader_ingest_run loader app0 Hins Hemb Hrec)
    as (app' & new & pending & Hrun & Hcalls & Hingest & _ & Hcount & _).
  exists app', ([LoaderInit id; CacheHasLoader id; CacheGetLoader id] ++ new
                ++ closing_calls (cache app0) loader pending).
  split; [exact Hrun|]. split; [|split; [|exact Hcount]].
  - unfold made_calls in *. rewrite Hcalls. unfold app0. cbn [calls with_calls].
    now rewrite <- app_assoc.
  - rewrite !forallb_app. apply andb_true_iff. split; [reflexivity|].
    apply andb_true_iff. split.
    + rewrite forallb_forall in *. intros call Hcall. apply Hingest in Hcall.
      now destruct call.
    + unfold closing_calls. now destruct (cache app0), (canIncrementallyLoad loader).
Qed.

(** * More on deletion *)

(** X10: When [deleteKeys] throws, a confirmed [deleteLoader] throws the same
    exception before it reaches the cache or the tracked loaders: the cache
    record stays and the loader stays tracked. *)
Theorem deleteLoader_deleteKeys_throws (uniqueLoaderId : string) (app : RAGApplication D C)
    (e : Error) (d' : D) :
  BaseDb.deleteKeys uniqueLoaderId (vectorDb app) = (Throw e, d') ->
  exists app',
    deleteLoader uniqueLoaderId true app = (Throw e, app')
    /\ made_calls app app' [DbDeleteKeys uniqueLoaderId]
    /\ vectorDb app' = d'
    /\ cache app' = cache app
    /\ loaders app' = loaders app.
Proof.
  intros Hdel. unfold deleteLoader, bind, vectorDb_call. cbn [negb].
  rewrite Hdel. eexists. split; [reflexivity|]. repeat split.
Qed.

(** X11: A confirmed [deleteAllEmbeddings] calls [reset] on the vector store and
    nothing else: it returns [true] when [reset] completes and throws what
    [reset] throws; either way the cache keeps every loader record and the
    tracked loaders stay as they were. *)
Theorem deleteAllEmbeddings_keeps_cache (app : RAGApplication D C) :
  let app' := snd (deleteAllEmbeddings true app) in
  fst (deleteAllEmbeddings true app)
  = match fst (BaseDb.reset (vectorDb app)) with
    | Ok _ => Ok true
    | Throw e => Throw e
    end
  /\ made_calls app app' [DbReset]
  /\ vectorDb app' = snd (BaseDb.reset (vectorDb app))
  /\ cache app' = cache app
  /\ loaders app' = loaders app.
Proof.
  unfold deleteAllEmbeddings, bind, vectorDb_call, ret, made_calls. cbn [negb].
  destruct (BaseDb.reset (vectorDb app)) as [[u|e] d]; repeat split.
Qed.

(** * More on retrieval *)





Lemma sort_insert_with_score (s : Q) (a : ExtractChunkData.t) (l : list ExtractChunkData.t) :
  with_score s (sort_insert by_score a l) = with_score s (a :: l).
Proof.
  unfold with_score. induction l as [|b l IH]; [reflexivity|].
  cbn [sort_insert]. destruct (Qgtb (by_score a b) 0) eqn:Hab; [|reflexivity].
  cbn [filter] in *. rewrite IH.
  destruct (Qeq_bool (ExtractChunkData.score a) s) eqn:Ha; [|reflexivity].
  destruct (Qeq_bool (ExtractChunkData.score b) s) eqn:Hb; [|reflexivity].
  exfalso. apply by_score_positive in Hab.
  apply Qeq_bool_iff in Ha, Hb. rewrite Ha, Hb in Hab.
  exact (Qlt_irrefl _ Hab).
Qed.

Lemma js_sort_with_score (s : Q) (l : list ExtractChunkData.t) :
  with_score s (js_sort by_score l) = with_score s l.
Proof.
  induction l as [|a l IH]; [reflexivity|].
  cbn [js_sort fold_right]. rewrite sort_insert_with_score.
  unfold with_score in *. cbn [filter]. fold (js_sort by_score l). now rewrite IH.
Qed.

(** X13: Fragments with equal scores come back in the order in which the search
    (or the reranker) listed them: for every score, the returned fragments
    with that score are a prefix of the relevant fragments with that score. *)
Theorem getEmbeddings_keeps_order_of_ties (cleanQuery : string) (app : RAGApplication D C)
    (queryEmbedded : Vector) (found unfiltered : list ExtractChunkData.t) :
  embedQuery (embedding app) cleanQuery = Ok queryEmbedded ->
  BaseDb.similaritySearch queryEmbedded (searchResultCount app + 10) (vectorDb app) = Ok found ->
  reranked (reranker app) cleanQuery found = Ok unfiltered ->
  exists results app',
    getEmbeddings cleanQuery app = (Ok results, app')
    /\ forall s, exists left_out,
         with_score s (relevant (embeddingRelevanceCutOff app) unfiltered)
         = with_score s results ++ left_out.
Proof.
  intros Hq Hfound Hrr.
  destruct (getEmbeddings_run cleanQuery app Hq Hfound Hrr) as (app' & Hrun & _).
  set (K := searchResultCount app) in *.
  set (sorted := js_sort by_score (relevant (embeddingRelevanceCutOff app) unfiltered)).
  exists (firstn K sorted), app'. split; [exact Hrun|].
  intros s. exists (with_score s (skipn K sorted)).
  unfold with_score at 2 3. rewrite <- filter_app, firstn_skipn.
  symmetry. apply js_sort_with_score.
Qed.

Lemma first_occurrences_length (A : Type) (eqb : A -> A -> bool) (l : list A) :
  List.length (first_occurrences eqb l) <= List.length l.
Proof.
  induction l as [|x l IH]; simpl; [lia|].
  pose proof (filter_length_le (fun y => negb (eqb x y)) (first_occurrences eqb l)). lia.
Qed.

Lemma getContext_ranked_run (query : string) (app : RAGApplication D C)
    (queryEmbedded : Vector) (found unfiltered : list ExtractChunkData.t) :
  embedQuery (embedding app) (cleanString query) = Ok queryEmbedded ->
  BaseDb.similaritySearch queryEmbedded (searchResultCount app + 10) (vectorDb app) = Ok found ->
  reranked (reranker app) (cleanString query) found = Ok unfiltered ->
  exists context app',
    getContext query app = (Ok context, app')
    /\ List.length context <= searchResultCount app
    /\ Forall (fun r => (embeddingRelevanceCutOff app < ExtractChunkData.score r)%Q) context
    /\ (forall r, In r context -> In r unfiltered).
Proof.
  intros Hq Hfound Hrr.
  destruct (getEmbeddings_run (cleanString query) app Hq Hfound Hrr) as (app' & Hrun & _).
  destruct (ranked_properties (searchResultCount app) (embeddingRelevanceCutOff app) unfiltered)
    as (Hlen & Hcut & _ & Hin).
  set (raw := ranked (searchResultCount app) (embeddingRelevanceCutOff app) unfiltered) in *.
  set (m := JsMap.of_entries String.eqb (map content_entry raw)).
  assert (Hfrom : Forall (fun e => In (snd e) raw) m).
  { apply (JsMap_of_entries_Forall _ String.eqb_eq).
    apply Forall_forall. intros e He. apply in_map_iff in He.
    destruct He as (item & <- & Hitem). exact Hitem. }
  assert (Hvalues : forall r, In r (JsMap.values m) -> In r raw).
  { intros r Hr. unfold JsMap.values in Hr. apply in_map_iff in Hr.
    destruct Hr as (e & <- & He). rewrite Forall_forall in Hfrom. now apply Hfrom. }
  exists (JsMap.values m), app'.
  split; [rewrite getContext_unfold, Hrun; reflexivity|]. split; [|split].
  - unfold JsMap.values. rewrite length_map, <- (length_map fst).
    fold (JsMap.keys m). unfold m.
    rewrite (JsMap_keys_of_entries _ String.eqb_eq).
    eapply Nat.le_trans; [apply first_occurrences_length|].
    now rewrite !length_map.
  - apply Forall_forall. intros r Hr. rewrite Forall_forall in Hcut.
    apply Hcut. now apply Hvalues.
  - intros r Hr. apply Hin. now apply Hvalues.
Qed.

(** X14: The context that [getContext] returns obeys the bounds of the ranking:
    at most [searchResultCount] fragments, each one of the (reranked) search
    results, each with a score strictly above the cut-off. *)
Theorem getContext_within_ranking (query : string) (app : RAGApplication D C)
    (queryEmbedded : Vector) (found unfiltered : list ExtractChunkData.t) :
  embedQuery (embedding app) (cleanString query) = Ok queryEmbedded ->
  BaseDb.similaritySearch queryEmbedded (searchResultCount app + 10) (vectorDb app) = Ok found ->
  reranked (reranker app) (cleanString query) found = Ok unfiltered ->
  exists context app',
    getContext query app = (Ok context, app')
    /\ List.length context <= searchResultCount app
    /\ Forall (fun r => (embeddingRelevanceCutOff app < ExtractChunkData.score r)%Q) context
    /\ (forall r, In r context -> In r unfiltered).
Proof.
  apply getContext_ranked_run.
Qed.

Lemma with_calls_own (app : RAGApplication D C) : with_calls (calls app) app = app.
Proof. now destruct app. Qed.

Ltac log_norm :=
  cbn [embedding searchResultCount vectorDb reranker embeddingRelevanceCutOff model
       queryTemplate cache loaders calls with_calls fst snd];
  rewrite <- ?app_assoc; cbn [List.app].

(** The methods of the retrieval pipeline read everything but the log, and
    write the log only. *)
Lemma getEmbeddings_log (cleanQuery : string) (l : list Call) (app : RAGApplication D C) :
  getEmbeddings cleanQuery (with_calls l app)
  = (fst (getEmbeddings cleanQuery (with_calls [] app)),
     with_calls (l ++ calls (snd (getEmbeddings cleanQuery (with_calls [] app)))) app).
Proof.
  unfold getEmbeddings, vectorDb_read, bind, this, record, await, ret. cbv beta. log_norm.
  destruct (embedQuery (embedding app) cleanQuery) as [v|e]; log_norm; [|reflexivity].
  destruct (BaseDb.similaritySearch v (searchResultCount app + 10) (vectorDb app))
    as [found|e]; log_norm; [|reflexivity].
  destruct (reranker app) as [r|]; log_norm; [|reflexivity].
  destruct (reRankDocuments r cleanQuery found) as [unfiltered|e]; log_norm; reflexivity.
Qed.

Lemma getContext_log (query : string) (l : list Call) (app : RAGApplication D C) :
  getContext query (with_calls l app)
  = (fst (getContext query (with_calls [] app)),
     with_calls (l ++ calls (snd (getContext query (with_calls [] app)))) app).
Proof.
  rewrite !getContext_unfold, getEmbeddings_log.
  destruct (getEmbeddings (cleanString query) (with_calls [] app)) as [[raw|e] app1];
    reflexivity.
Qed.

Lemma query_unfold (userQuery : string) (conversationId : option string)
    (app : RAGApplication D C) :
  query userQuery conversationId app
  = match getContext userQuery app with
    | (Ok context, app1) =>
        let asked :=
          with_calls
            (calls app1 ++ [ModelQuery (queryTemplate app1) userQuery context conversationId])
            app1 in
        match model_query (model app1) (queryTemplate app1) userQuery context
                conversationId with
        | Ok answer =>
            (Ok {| result := answer;
                   sources := JsSet.of_list (option_eqb String.eqb)
                                (map source_of context) |}, asked)
        | Throw e => (Throw e, asked)
        end
    | (Throw e, app1) => (Throw e, app1)
    end.
Proof.
  unfold query. unfold bind at 1.
  destruct (getContext userQuery app) as [[context|e] app1]; [|reflexivity].
  unfold bind, this, record, await, ret. cbv beta. log_norm.
  match goal with
  | |- context [model_query ?m ?t ?q ?c ?i] => destruct (model_query m t q c i)
  end; reflexivity.
Qed.



(** X15: Every source that [query] cites is the [metadata.source] of a search
    result whose score is above the cut-off, and there are at most
    [searchResultCount] of them. *)
Theorem query_cites_relevant_results (userQuery : string) (conversationId : option string)
    (app : RAGApplication D C) (queryEmbedded : Vector)
    (found unfiltered : list ExtractChunkData.t) :
  embedQuery (embedding app) (cleanString userQuery) = Ok queryEmbedded ->
  BaseDb.similaritySearch queryEmbedded (searchResultCount app + 10) (vectorDb app) = Ok found ->
  reranked (reranker app) (cleanString userQuery) found = Ok unfiltered ->
  (forall context, exists answer,
     model_query (model app) (queryTemplate app) userQuery context conversationId = Ok answer) ->
  exists response app',
    query userQuery conversationId app = (Ok response, app')
    /\ List.length (sources response) <= searchResultCount app
    /\ forall s, In s (sources response) ->
         exists r, In r unfiltered
                   /\ (embeddingRelevanceCutOff app < ExtractChunkData.score r)%Q
                   /\ source_of r = s.
Proof.
  intros Hq Hfound Hrr Hmodel.
  destruct (getContext_ranked_run userQuery app Hq Hfound Hrr)
    as (context & app1 & Hctx & Hlen & Hcut & Hin).
  assert (Hsame : model app1 = model app /\ queryTemplate app1 = queryTemplate app).
  { pose proof (getContext_log userQuery (calls app) app) as Hown.
    rewrite with_calls_own, Hctx in Hown. injection Hown as _ Happ1.
    rewrite Happ1. split; reflexivity. }
  destruct Hsame as [Hm Ht].
  destruct (Hmodel context) as (answer & Hanswer).
  rewrite query_unfold, Hctx. cbv zeta. rewrite Hm, Ht, Hanswer.
  do 2 eexists. split; [reflexivity|]. cbn [sources].
  rewrite (JsSet_of_list_first_occurrences _ option_string_eqb_spec). split.
  - eapply Nat.le_trans; [apply first_occurrences_length|]. now rewrite length_map.
  - intros s Hs. apply (proj1 (first_occurrences_In _ option_string_eqb_spec _ _)) in Hs.
    apply in_map_iff in Hs. destruct Hs as (r & Hsrc & Hr).
    exists r. split; [now apply Hin|]. split; [|exact Hsrc].
    rewrite Forall_forall in Hcut. now apply Hcut.
Qed.

(** * More on construction and initialisation *)


Lemma addLoader_without_cache (loader : BaseLoader) (app : RAGApplication D C) :
  cache app = None -> insert_contract -> embeds (embedding app) ->
  exists app',
    addLoader loader app
    = (Ok {| entriesAdded := List.length (getChunks loader);
             uniqueId := getUniqueId loader |}, app')
    /\ cache app' = None
    /\ loaders app' = without_loader (getUniqueId loader) (loaders app) ++ [loader]
    /\ vector_count app' = vector_count app + List.length (getChunks loader)
    /\ embedding app' = embedding app.
Proof.
  intros Hc Hins Hemb.
  assert (Hfresh : no_prior_record (getUniqueId loader) app)
    by (unfold no_prior_record; now rewrite Hc).
  rewrite (addLoader_fresh loader app Hfresh).
  set (app0 := with_calls _ app).
  destruct (batchLoadChunks_run (getUniqueId loader) (getChunks loader) app0 Hins Hemb)
    as (app1 & new & fc & Hrun & (_ & _ & Hcache & Hloaders & Hembedding) & _ & Hcount & _).
  unfold addLoader_ingest. unfold bind at 1. rewrite Hrun.
  unfold bind, this, cache_call, record, set_loaders, ret. cbv beta. cbn [fst snd].
  assert (Hc1 : cache app1 = None) by (rewrite Hcache; exact Hc).
  rewrite Hc1.
  destruct (canIncrementallyLoad loader); eexists; (split; [reflexivity|]);
    cbn [cache loaders embedding with_loaders with_calls];
    (split; [exact Hc1|]); (split; [now rewrite Hloaders|]);
    (split; [exact Hcount | exact Hembedding]).
Qed.

Lemma for_each_addLoader (todo : list BaseLoader) :
  forall (done : list BaseLoader) (app : RAGApplication D C),
  cache app = None -> insert_contract -> embeds (embedding app) ->
  loaders app = todo ++ done ->
  NoDup (map getUniqueId (todo ++ done)) ->
  exists app',
    for_each todo (fun loader => bind (addLoader loader) (fun _ => ret tt)) app = (Ok tt, app')
    /\ cache app' = None
    /\ loaders app' = done ++ todo
    /\ vector_count app' = vector_count app + total_chunks todo.
Proof.
  induction todo as [|loader todo IH]; intros done app Hc Hins Hemb Hloaders Hnd.
  - exists app. simpl in *. unfold ret, total_chunks. simpl.
    rewrite app_nil_r. repeat split; trivial; lia.
  - destruct (addLoader_without_cache loader app Hc Hins Hemb)
      as (app1 & Hrun & Hc1 & Hl1 & Hcount1 & Hemb1).
    assert (Hrest : without_loader (getUniqueId loader) (loaders app) = todo ++ done).
    { rewrite Hloaders. simpl. unfold without_loader. simpl.
      rewrite String.eqb_refl. simpl. apply without_loader_absent.
      simpl in Hnd. now inversion Hnd. }
    rewrite Hrest, <- app_assoc in Hl1.
    assert (Hnd1 : NoDup (map getUniqueId (todo ++ done ++ [loader]))).
    { rewrite app_assoc, map_app. simpl in *.
      apply NoDup_app; [now inversion Hnd | repeat constructor; intros [] |].
      intros x Hx [Heq | []]. subst x. now inversion Hnd. }
    assert (Hemb' : embeds (embedding app1)) by (now rewrite Hemb1).
    destruct (IH (done ++ [loader]) app1 Hc1 Hins Hemb' Hl1 Hnd1)
      as (app' & Hloop & Hc' & Hl' & Hcount').
    exists app'. split; [|split; [exact Hc' | split]].
    + cbn [for_each]. unfold bind at 1 2. rewrite Hrun. unfold ret at 1. exact Hloop.
    + rewrite Hl', <- app_assoc. reflexivity.
    + rewrite Hcount', Hcount1. unfold total_chunks. simpl. lia.
Qed.

(** X18: [init] without a cache, when the model and the vector store initialise
    and the loaders that [getUnique] keeps have distinct ids: every one of
    them is ingested, the vector count of the initialised store grows by the
    number of chunks they yield together, and the tracked loaders are again
    the deduplicated list, in its order. *)
Theorem init_ingests_every_loader (env : Lifecycle D C) (app : RAGApplication D C) (d0 : D) :
  model_init env (model app) = Ok tt ->
  vectorDb_init env (getDimensions env (embedding app)) (vectorDb app) = (Ok tt, d0) ->
  cache app = None ->
  insert_contract -> embeds (embedding app) ->
  NoDup (map getUniqueId (getUnique env (loaders app))) ->
  exists app',
    init env app = (Ok tt, app')
    /\ loaders app' = getUnique env (loaders app)
    /\ vector_count app'
       = BaseDb.getVectorCount d0 + total_chunks (getUnique env (loaders app))
    /\ cache app' = None.
Proof.
  intros Hmodel Hdb Hc Hins Hemb Hnd.
  set (app0 := with_loaders (getUnique env (loaders app)) (with_vectorDb d0 app)).
  assert (Hl0 : loaders app0 = getUnique env (loaders app) ++ []) by (now rewrite app_nil_r).
  rewrite <- (app_nil_r (getUnique env (loaders app))) in Hnd.
  destruct (for_each_addLoader (getUnique env (loaders app)) [] app0 Hc Hins Hemb Hl0 Hnd)
    as (app' & Hloop & Hc' & Hl' & Hcount').
  exists app'. split; [|split; [exact Hl' | split; [exact Hcount' | exact Hc']]].
  unfold init, bind, this, await, vectorDb_write, set_loaders, ret. cbv beta.
  rewrite Hmodel, Hdb. cbn [cache with_vectorDb loaders with_loaders]. rewrite Hc.
  exact Hloop.
Qed.

(** * Registering twice *)

Lemma deleteLoader_keeps_embedding (uniqueLoaderId : string) (areYouSure : bool)
    (app : RAGApplication D C) :
  embedding (snd (deleteLoader uniqueLoaderId areYouSure app)) = embedding app.
Proof.
  unfold deleteLoader, bind, vectorDb_call, this, set_loaders, ret, cache_call, record.
  destruct areYouSure; cbn [negb]; [|reflexivity].
  destruct (BaseDb.deleteKeys uniqueLoaderId (vectorDb app)) as [[b|e] d]; [|reflexivity].
  cbn [cache with_vectorDb with_calls].
  destruct (cache app) as [c|]; [|reflexivity].
  destruct b; [|reflexivity].
  destruct (BaseCache.deleteLoader uniqueLoaderId c) as [[u|e] c']; reflexivity.
Qed.

Lemma addLoader_opening_keeps_embedding (loader : BaseLoader) (app : RAGApplication D C) :
  embedding (snd (addLoader_opening loader app)) = embedding app.
Proof.
  unfold addLoader_opening.
  unfold bind, record, this, await, ret. cbv beta. cbn [cache with_calls calls fst snd].
  destruct (cache app) as [c|]; [|reflexivity].
  destruct (BaseCache.hasLoader (getUniqueId loader) c) as [[|]|e]; try reflexivity.
  destruct (BaseCache.getLoader (getUniqueId loader) c) as [previous|e]; [|reflexivity].
  destruct (0 <? chunkCount previous); [|reflexivity].
  match goal with
  | |- context [deleteLoader ?i true ?a] =>
      pose proof (deleteLoader_keeps_embedding i true a) as Hdel;
      destruct (deleteLoader i true a) as [[b|e] app1]
  end; exact Hdel.
Qed.

Lemma addLoader_ingest_keeps_embedding (loader : BaseLoader) (app : RAGApplication D C) :
  embedding (snd (addLoader_ingest loader app)) = embedding app.
Proof.
  unfold addLoader_ingest. unfold bind at 1.
  pose proof (batchLoadChunks_kept (getUniqueId loader) (getChunks loader) app)
    as (_ & _ & Hembedding).
  destruct (batchLoadChunks (getUniqueId loader) (getChunks loader) app) as [[st|e] app1];
    cbn [snd] in *; [|exact Hembedding].
  unfold bind, this, cache_call, record, set_loaders, ret. cbv beta.
  destruct (cache app1) as [c|].
  - destruct (BaseCache.addLoader (getUniqueId loader) (List.length (snd st)) c)
      as [[u|e] c']; [|exact Hembedding].
    destruct (canIncrementallyLoad loader); exact Hembedding.
  - destruct (canIncrementallyLoad loader); exact Hembedding.
Qed.

Lemma addLoader_keeps_embedding (loader : BaseLoader) (app : RAGApplication D C) :
  embedding (snd (addLoader loader app)) = embedding app.
Proof.
  rewrite addLoader_split.
  pose proof (addLoader_opening_keeps_embedding loader app) as Hopen.
  destruct (addLoader_opening loader app) as [[u|e] app0]; cbn [snd] in *; [|exact Hopen].
  now rewrite addLoader_ingest_keeps_embedding.
Qed.

(** X8: Registering the same loader twice when its N chunks fill whole batches
    (B divides N): the first [addLoader] leaves the count 0 in the cache, so
    the second takes the loader as having nothing to delete, deletes nothing
    and inserts the N chunks again; the store then holds them twice. *)
Theorem addLoader_twice_doubles_full_batches (loader : BaseLoader)
    (app : RAGApplication D C) (c : C) :
  0 < DEFAULT_INSERT_BATCH_SIZE ->
  List.length (getChunks loader) mod DEFAULT_INSERT_BATCH_SIZE = 0 ->
  insert_contract -> embeds (embedding app) -> cache_records -> cache_remembers ->
  cache app = Some c ->
  BaseCache.hasLoader (getUniqueId loader) c = Ok false ->
  let N := List.length (getChunks loader) in
  exists app1 app2 new2,
    addLoader loader app
    = (Ok {| entriesAdded := N; uniqueId := getUniqueId loader |}, app1)
    /\ addLoader loader app1
       = (Ok {| entriesAdded := N; uniqueId := getUniqueId loader |}, app2)
    /\ made_calls app1 app2 new2
    /\ forallb (fun call => negb (is_deletion call)) new2 = true
    /\ vector_count app2 = vector_count app + 2 * N.
Proof.
  intros HB Hfull Hins Hemb Hrec Hremembers Hc Hhas N.
  set (id := getUniqueId loader) in *.
  assert (Hfresh : no_prior_record id app) by (unfold no_prior_record; now rewrite Hc).
  pose proof (addLoader_fresh loader app Hfresh) as Hfirst. fold id in Hfirst.
  set (app0 := with_calls _ app) in Hfirst.
  destruct (addLoader_ingest_run loader app0 Hins Hemb Hrec)
    as (app1 & new1 & pending & Hrun1 & _ & _ & _ & Hcount1 & Hmod & _ & Hcache1 & _).
  specialize (Hmod HB). rewrite Hfull in Hmod. subst pending.
  rewrite <- Hfirst in Hrun1.
  assert (Hemb1 : embeds (embedding app1)).
  { pose proof (addLoader_keeps_embedding loader app) as Hkeep.
    rewrite Hrun1 in Hkeep. cbn [snd] in Hkeep. now rewrite Hkeep. }
  assert (Hc1 : cache app1 = Some (snd (BaseCache.addLoader id 0 c))).
  { rewrite Hcache1. unfold app0. cbn [cache with_calls]. now rewrite Hc. }
  destruct (Hremembers id 0 c) as [Hhas1 Hget1].
  pose proof (addLoader_zero_record loader app1 Hc1 Hhas1 Hget1) as Hsecond.
  fold id in Hsecond. set (app1' := with_calls _ app1) in Hsecond.
  destruct (addLoader_ingest_run loader app1' Hins Hemb1 Hrec)
    as (app2 & new2 & pending2 & Hrun2 & Hcalls2 & Hingest2 & _ & Hcount2 & _).
  rewrite <- Hsecond in Hrun2.
  exists app1, app2,
    ([LoaderInit id; CacheHasLoader id; CacheGetLoader id] ++ new2
     ++ closing_calls (cache app1') loader pending2).
  split; [exact Hrun1|]. split; [exact Hrun2|]. split; [|split].
  - unfold made_calls in *. rewrite Hcalls2. unfold app1'. cbn [calls with_calls].
    now rewrite <- app_assoc.
  - rewrite !forallb_app. apply andb_true_iff. split; [reflexivity|].
    apply andb_true_iff. split.
    + rewrite forallb_forall in *. intros call Hcall. apply Hingest2 in Hcall.
      now destruct call.
    + unfold closing_calls. now destruct (cache app1'), (canIncrementallyLoad loader).
  - rewrite Hcount2. unfold vector_count at 1. cbn [vectorDb app1' with_calls].
    fold (vector_count app1). rewrite Hcount1. unfold app0, vector_count.
    cbn [vectorDb with_calls]. fold N. lia.
Qed.

End Orchestrator.

(** * The orchestrator on concrete inputs *)

Import Fixture.

Lemma MemoryDb_insert_contract : insert_contract (D := MemoryDb.t).
Proof.
  intros chunks d. exists (d ++ chunks). split; [reflexivity|].
  simpl. apply length_app.
Qed.

Lemma Fixture_embeds : embeds embeddings.
Proof. intros texts. eexists. reflexivity. Qed.

Lemma MemoryCache_records : cache_records (C := MemoryCache.t).
Proof. intros id count c. reflexivity. Qed.

(** ** Construction *)

Lemma constructor_requires_model_and_vectorDb_witness :
  (getModel builder_without_model = None \/ getVectorDb builder_without_model = None)
  /\ constructor identity embeddings builder_without_model
     = Throw (SyntaxError "Model not set")
  /\ forall app, constructor identity embeddings builder_without_model <> Ok app.
Proof.
  split; [left; reflexivity|].
  exact (constructor_requires_model_and_vectorDb identity embeddings builder_without_model
           (or_introl eq_refl)).
Defined.

(** ** Retrieval *)

Lemma getEmbeddings_top_k_above_cutoff_witness :
  let found := [hit "a" "s1" (9 # 10); hit "b" "s2" (6 # 10); hit "c" "s3" (4 # 10);
                hit "d" "s4" (3 # 10)] in
  embedQuery (embedding scenario) "q" = Ok [1%Q]
  /\ BaseDb.similaritySearch [1%Q] (searchResultCount scenario + 10) (vectorDb scenario)
     = Ok found
  /\ reranked (reranker scenario) "q" found = Ok found
  /\ exists app',
       getEmbeddings "q" scenario
       = (Ok [hit "a" "s1" (9 # 10); hit "b" "s2" (6 # 10)], app').
Proof.
  intros found.
  assert (Hq : embedQuery (embedding scenario) "q" = Ok [1%Q]) by reflexivity.
  assert (Hfound : BaseDb.similaritySearch [1%Q] (searchResultCount scenario + 10)
                     (vectorDb scenario) = Ok found) by (vm_compute; reflexivity).
  assert (Hrr : reranked (reranker scenario) "q" found = Ok found) by reflexivity.
  repeat (split; [assumption|]).
  destruct (getEmbeddings_top_k_above_cutoff "q" scenario Hq Hfound Hrr)
    as (results & app' & Hrun & _ & _ & _ & _ & Hscenario).
  exists app'. rewrite Hrun.
  destruct Hscenario as [Hresults _].
  - reflexivity.
  - reflexivity.
  - unfold scored, scenario_scores, found, hit. repeat constructor; reflexivity.
  - rewrite Hresults. reflexivity.
Defined.

(** C2 as stated fails: of two fragments with the page content ["a"], the one
    ranked first (source ["s1"], score 0.9) is not in the result of
    [getContext]; the one ranked second (source ["s3"], score 0.8) is. *)
Lemma getContext_drops_first_occurrence :
  let searched := with_calls [EmbedQuery "q"; DbSimilaritySearch [1%Q] 13] retrieval in
  let rawContext := [hit "a" "s1" (9 # 10); hit "a" "s3" (8 # 10); hit "b" "s2" (6 # 10)] in
  getEmbeddings "q" retrieval = (Ok rawContext, searched)
  /\ getContext identity "q" retrieval
     = (Ok [hit "a" "s3" (8 # 10); hit "b" "s2" (6 # 10)], searched)
  /\ first_with_content "a" rawContext = Some (hit "a" "s1" (9 # 10))
  /\ ~ In (hit "a" "s1" (9 # 10)) [hit "a" "s3" (8 # 10); hit "b" "s2" (6 # 10)].
Proof.
  repeat split; try (vm_compute; reflexivity).
  intros [H | [H | []]]; discriminate H.
Qed.

Lemma getContext_dedup_last_wins_witness :
  let searched := with_calls [EmbedQuery "q"; DbSimilaritySearch [1%Q] 13] retrieval in
  let rawContext := [hit "a" "s1" (9 # 10); hit "a" "s3" (8 # 10); hit "b" "s2" (6 # 10)] in
  getEmbeddings (identity "q") retrieval = (Ok rawContext, searched)
  /\ exists context,
       getContext identity "q" retrieval = (Ok context, searched)
       /\ NoDup (map ExtractChunkData.pageContent context)
       /\ map ExtractChunkData.pageContent context = ["a"; "b"]
       /\ Forall (fun item =>
                    last_with_content (ExtractChunkData.pageContent item) rawContext
                    = Some item) context.
Proof.
  intros searched rawContext.
  assert (Hraw : getEmbeddings (identity "q") retrieval = (Ok rawContext, searched))
    by (vm_compute; reflexivity).
  split; [exact Hraw|].
  exact (getContext_dedup_last_wins identity "q" retrieval Hraw).
Defined.

Lemma query_sources_distinct_witness :
  let searched := with_calls [EmbedQuery "q"; DbSimilaritySearch [1%Q] 13] retrieval in
  let context := [hit "a" "s3" (8 # 10); hit "b" "s2" (6 # 10)] in
  getContext identity "q" retrieval = (Ok context, searched)
  /\ model_query (model searched) (queryTemplate searched) "q" context None = Ok "answer"
  /\ exists response app2,
       query identity "q" None retrieval = (Ok response, app2)
       /\ sources response = [Some "s3"; Some "s2"].
Proof.
  intros searched context.
  assert (Hctx : getContext identity "q" retrieval = (Ok context, searched))
    by (vm_compute; reflexivity).
  assert (Hmodel : model_query (model searched) (queryTemplate searched) "q" context None
                   = Ok "answer") by reflexivity.
  repeat (split; [assumption|]).
  destruct (query_sources_distinct identity "q" None retrieval Hctx Hmodel)
    as (response & app2 & Hrun & _ & _ & Hsources & _).
  exists response, app2. split; [exact Hrun | exact Hsources].
Defined.

(** ** Deletion *)

(** C3 as stated fails: the store holds nothing for ["L"], so [deleteKeys]
    answers [false]; the cache keeps its record, yet the loader is dropped
    from the tracked loaders. *)
Lemma deleteLoader_untracks_on_failure :
  loaders tracked = [loader "L" ["a"]]
  /\ deleteLoader "L" true tracked
     = (Ok false, with_loaders [] (with_calls [DbDeleteKeys "L"] tracked))
  /\ cache (snd (deleteLoader "L" true tracked)) = cache tracked
  /\ loaders (snd (deleteLoader "L" true tracked)) <> loaders tracked.
Proof.
  repeat split; try (vm_compute; reflexivity).
  vm_compute. discriminate.
Qed.

Lemma deleteLoader_confirmed_witness :
  BaseDb.deleteKeys "L" (vectorDb ingested) = (Ok true, [stored "K" "x" 0])
  /\ cache_removal_completes (cache ingested) true "L"
  /\ exists app',
       deleteLoader "L" true ingested = (Ok true, app')
       /\ made_calls ingested app' [DbDeleteKeys "L"; CacheDeleteLoader "L"]
       /\ vectorDb app' = [stored "K" "x" 0]
       /\ cache app' = Some []
       /\ loaders app' = [].
Proof.
  assert (Hdel : BaseDb.deleteKeys "L" (vectorDb ingested) = (Ok true, [stored "K" "x" 0]))
    by (vm_compute; reflexivity).
  assert (Hrm : cache_removal_completes (cache ingested) true "L")
    by (intros _; reflexivity).
  repeat (split; [assumption|]).
  destruct (deleteLoader_confirmed "L" ingested Hdel Hrm)
    as (app' & Hrun & Hcalls & Hdb & _ & Hcache & _ & Hloaders).
  exists app'. repeat split; assumption.
Defined.

(** ** Ingestion *)

Lemma addLoader_fresh_adds_all_witness :
  insert_contract (D := MemoryDb.t)
  /\ embeds (embedding empty)
  /\ cache_records (C := MemoryCache.t)
  /\ no_prior_record "L" empty
  /\ exists app',
       addLoader batch_size (loader "L" ["a"; "b"; "c"]) empty
       = (Ok {| entriesAdded := 3; uniqueId := "L" |}, app')
       /\ vector_count app' = vector_count empty + 3.
Proof.
  assert (Hfresh : no_prior_record (getUniqueId (loader "L" ["a"; "b"; "c"])) empty)
    by reflexivity.
  split; [exact MemoryDb_insert_contract|].
  split; [exact Fixture_embeds|].
  split; [exact MemoryCache_records|].
  split; [exact Hfresh|].
  exact (addLoader_fresh_adds_all batch_size (loader "L" ["a"; "b"; "c"]) empty
           MemoryDb_insert_contract Fixture_embeds MemoryCache_records Hfresh).
Defined.

(** The cache after a first [addLoader] of two chunks with batch size 2:
    both chunks were inserted, the recorded count is 0. *)
Lemma addLoader_full_batch_records_zero :
  fst (addLoader batch_size (loader "L" ["a"; "b"]) empty)
  = Ok {| entriesAdded := 2; uniqueId := "L" |}
  /\ vector_count (snd (addLoader batch_size (loader "L" ["a"; "b"]) empty)) = 2
  /\ cache (snd (addLoader batch_size (loader "L" ["a"; "b"]) empty)) = Some [("L", 0)].
Proof. repeat split; vm_compute; reflexivity. Qed.

Lemma addLoader_records_last_batch_size_witness :
  0 < batch_size
  /\ insert_contract (D := MemoryDb.t)
  /\ embeds (embedding empty)
  /\ cache_records (C := MemoryCache.t)
  /\ cache empty = Some []
  /\ BaseCache.hasLoader "L" ([] : MemoryCache.t) = Ok false
  /\ exists app',
       addLoader batch_size (loader "L" ["a"; "b"]) empty
       = (Ok {| entriesAdded := 2; uniqueId := "L" |}, app')
       /\ cache app' = Some [("L", 0)]
       /\ 0 <> 2.
Proof.
  assert (HB : 0 < batch_size) by (unfold batch_size; lia).
  assert (Hc : cache empty = Some (@nil (string * nat))) by reflexivity.
  assert (Hhas : BaseCache.hasLoader (getUniqueId (loader "L" ["a"; "b"]))
                   ([] : MemoryCache.t) = Ok false) by reflexivity.
  split; [exact HB|].
  split; [exact MemoryDb_insert_contract|].
  split; [exact Fixture_embeds|].
  split; [exact MemoryCache_records|].
  split; [exact Hc|].
  split; [exact Hhas|].
  destruct (addLoader_records_last_batch_size (loader "L" ["a"; "b"]) empty HB
              MemoryDb_insert_contract Fixture_embeds MemoryCache_records Hc Hhas)
    as (app' & new & Hrun & _ & _ & Hcache & Hne).
  exists app'. split; [exact Hrun|]. split; [exact Hcache|].
  apply Hne. unfold batch_size. simpl. lia.
Defined.

(** C4 as stated fails: after a first ingestion of one chunk and a confirmed
    [deleteAllEmbeddings], the cache still records the count P = 1 for ["L"]
    while the store is empty; registering ["L"] again with M = 1 chunk
    raises the vector count by 1, not by M - P = 0. *)
Lemma addLoader_again_after_reset :
  let app1 := snd (addLoader batch_size (loader "L" ["a"]) empty) in
  let app2 := snd (deleteAllEmbeddings true app1) in
  let app3 := snd (addLoader batch_size (loader "L" ["b"]) app2) in
  cache app2 = Some [("L", 1)]
  /\ fst (addLoader batch_size (loader "L" ["b"]) app2)
     = Ok {| entriesAdded := 1; uniqueId := "L" |}
  /\ vector_count app2 = 0
  /\ vector_count app3 = 1
  /\ (Z.of_nat (vector_count app3) - Z.of_nat (vector_count app2)
      <> Z.of_nat 1 - Z.of_nat 1)%Z.
Proof.
  repeat split; try (vm_compute; reflexivity).
  vm_compute. discriminate.
Qed.

Lemma addLoader_again_replaces_witness :
  let l := loader "L" ["c"; "d"; "e"] in
  insert_contract (D := MemoryDb.t)
  /\ embeds (embedding ingested)
  /\ cache_records (C := MemoryCache.t)
  /\ cache ingested = Some [("L", 2)]
  /\ BaseCache.hasLoader "L" ([("L", 2)] : MemoryCache.t) = Ok true
  /\ BaseCache.getLoader "L" ([("L", 2)] : MemoryCache.t) = Ok {| chunkCount := 2 |}
  /\ 0 < 2
  /\ BaseDb.deleteKeys "L" (vectorDb ingested) = (Ok true, [stored "K" "x" 0])
  /\ BaseDb.getVectorCount [stored "K" "x" 0] + 2 = vector_count ingested
  /\ (true = true -> fst (BaseCache.deleteLoader "L" ([("L", 2)] : MemoryCache.t)) = Ok tt)
  /\ exists app',
       addLoader batch_size l ingested
       = (Ok {| entriesAdded := 3; uniqueId := "L" |}, app')
       /\ (Z.of_nat (vector_count app') - Z.of_nat (vector_count ingested) = 3 - 2)%Z.
Proof.
  intros l.
  assert (Hc : cache ingested = Some [("L", 2)]) by reflexivity.
  assert (Hhas : BaseCache.hasLoader (getUniqueId l) ([("L", 2)] : MemoryCache.t) = Ok true)
    by reflexivity.
  assert (Hget : BaseCache.getLoader (getUniqueId l) ([("L", 2)] : MemoryCache.t)
                 = Ok {| chunkCount := 2 |}) by reflexivity.
  assert (Hpos : 0 < 2) by lia.
  assert (Hdel : BaseDb.deleteKeys (getUniqueId l) (vectorDb ingested)
                 = (Ok true, [stored "K" "x" 0])) by (vm_compute; reflexivity).
  assert (HQ : BaseDb.getVectorCount [stored "K" "x" 0] + 2 = vector_count ingested)
    by reflexivity.
  assert (Hrm : true = true ->
                fst (BaseCache.deleteLoader (getUniqueId l) ([("L", 2)] : MemoryCache.t))
                = Ok tt) by (intros _; reflexivity).
  split; [exact MemoryDb_insert_contract|].
  split; [exact Fixture_embeds|].
  split; [exact MemoryCache_records|].
  repeat (split; [assumption|]).
  destruct (addLoader_again_replaces batch_size l ingested 2 MemoryDb_insert_contract
              Fixture_embeds MemoryCache_records Hc Hhas Hget Hpos Hdel HQ Hrm)
    as (app' & new & Hrun & _ & _ & _ & _ & Hnet).
  exists app'. split; [exact Hrun | exact (Hnet eq_refl)].
Defined.

(** ** Chunk ids *)

Lemma chunk_ids_restart_in_every_run_witness :
  let l := loader "L" ["a"; "b"; "c"] in
  let incrementalGenerator := [chunk "d" "L"; chunk "e" "L"] in
  insert_contract (D := MemoryDb.t)
  /\ cache_records (C := MemoryCache.t)
  /\ embeds (embedding empty)
  /\ embeds (embedding ingested)
  /\ no_prior_record "L" empty
  /\ exists app' new later' new',
       addLoader batch_size l empty
       = (Ok {| entriesAdded := 3; uniqueId := "L" |}, app')
       /\ made_calls empty app' new
       /\ incrementalLoader batch_size "L" incrementalGenerator ingested = (Ok tt, later')
       /\ made_calls ingested later' new'
       /\ map id_of (inserted new) = [Some "L_0"; Some "L_1"; Some "L_2"]
       /\ map id_of (inserted new') = [Some "L_0"; Some "L_1"].
Proof.
  intros l incrementalGenerator.
  assert (Hfresh : no_prior_record (getUniqueId l) empty) by reflexivity.
  split; [exact MemoryDb_insert_contract|].
  split; [exact MemoryCache_records|].
  split; [exact Fixture_embeds|].
  split; [exact Fixture_embeds|].
  split; [exact Hfresh|].
  destruct (chunk_ids_restart_in_every_run batch_size l incrementalGenerator empty ingested
              MemoryDb_insert_contract MemoryCache_records Fixture_embeds Fixture_embeds
              Hfresh)
    as (app' & new & later' & new' & Hrun & Hcalls & Hrun' & Hcalls' & Hids & Hids' & _).
  exists app', new, later', new'. repeat split; assumption.
Defined.

(** * The batch size and the stored chunks *)

(** X2: The batch size only decides how the chunks are grouped into calls: for
    any two batch sizes, [batchLoadChunks] hands the same chunks (page content
    and metadata) to the vector store in the same order, and the store ends
    with the same vector count. *)
Theorem batch_size_does_not_change_what_is_stored (D C : Type) (vectorDbOps : BaseDb.t D)
    (B1 B2 : nat) (uniqueId : string) (incrementalGenerator : list Chunk.t)
    (app : RAGApplication D C) :
  insert_contract -> embeds (embedding app) ->
  exists app1 new1 pending1 app2 new2 pending2,
    batchLoadChunks B1 uniqueId incrementalGenerator app
    = (Ok (List.length incrementalGenerator, pending1), app1)
    /\ made_calls app app1 new1
    /\ batchLoadChunks B2 uniqueId incrementalGenerator app
       = (Ok (List.length incrementalGenerator, pending2), app2)
    /\ made_calls app app2 new2
    /\ map chunk_of (inserted new1) = map chunk_of (inserted new2)
    /\ vector_count app1 = vector_count app2.
Proof.
  intros Hins Hemb.
  destruct (batchLoadChunks_run B1 uniqueId incrementalGenerator app Hins Hemb)
    as (app1 & new1 & pending1 & Hrun1 & (Hcalls1 & _) & Hrows1 & Hcount1 & _).
  destruct (batchLoadChunks_run B2 uniqueId incrementalGenerator app Hins Hemb)
    as (app2 & new2 & pending2 & Hrun2 & (Hcalls2 & _) & Hrows2 & Hcount2 & _).
  exists app1, new1, pending1, app2, new2, pending2.
  repeat split; try assumption; congruence.
Qed.

(** * The Fireworks embedding provider *)

(** X19: The dimension given to the constructor is never stored: [getDimensions]
    of a new [FireworksEmbedding] is [undefined] whatever was passed, and two
    providers built with the same model name and different dimensions are
    the same. *)
Theorem FireworksEmbedding_loses_dimension
    (FireworksEmbeddings : FireworksEmbedding.Options -> BaseEmbeddings)
    (params : option FireworksEmbedding.Params) :
  FireworksEmbedding.getDimensions
    (FireworksEmbedding.constructor FireworksEmbeddings params) = None
  /\ forall name d1 d2,
       FireworksEmbedding.constructor FireworksEmbeddings
         (Some {| FireworksEmbedding.params_modelName := name;
                  FireworksEmbedding.params_dimension := d1 |})
       = FireworksEmbedding.constructor FireworksEmbeddings
           (Some {| FireworksEmbedding.params_modelName := name;
                    FireworksEmbedding.params_dimension := d2 |}).
Proof. split; reflexivity. Qed.

(** * The YouTube channel loader *)

Section YoutubeChannelLoaderFacts.
Import YoutubeChannelLoader.
Variable getChannelVideos : string -> Result (list Video).
Variable YoutubeLoader_getUnfilteredChunks : string -> nat -> option nat -> Generated.

Local Abbreviation chunks_of this videoId :=
  (YoutubeLoader_getUnfilteredChunks videoId (chunkSize this) (chunkOverlap this)).




Lemma videos_loop_complete (this : t) (videoIds : list string) :
  (forall videoId, In videoId videoIds -> thrown (chunks_of this videoId) = None) ->
  videos_loop YoutubeLoader_getUnfilteredChunks this videoIds
  = {| yielded := all_chunks YoutubeLoader_getUnfilteredChunks this videoIds;
       thrown := None |}.
Proof.
  induction videoIds as [|videoId rest IH]; intros Hok; [reflexivity|].
  cbn [videos_loop all_chunks flat_map].
  rewrite (Hok videoId (or_introl eq_refl)), IH; [reflexivity|].
  intros v Hv. apply Hok. now right.
Qed.

Lemma videos_loop_stops (this : t) (before after : list string) (videoId : string)
    (e : Error) :
  (forall v, In v before -> thrown (chunks_of this v) = None) ->
  thrown (chunks_of this videoId) = Some e ->
  videos_loop YoutubeLoader_getUnfilteredChunks this (before ++ videoId :: after)
  = {| yielded := all_chunks YoutubeLoader_getUnfilteredChunks this before
                  ++ map (restamp this) (yielded (chunks_of this videoId));
       thrown := Some e |}.
Proof.
  intros Hok Hthrown. induction before as [|v before IH].
  - cbn [List.app videos_loop all_chunks flat_map]. now rewrite Hthrown.
  - cbn [List.app videos_loop all_chunks flat_map].
    rewrite (Hok v (or_introl eq_refl)), IH.
    + cbn [yielded thrown]. now rewrite <- app_assoc.
    + intros u Hu. apply Hok. now right.
Qed.

(** X21: When the generator of one video throws, the channel loader ends
    normally and silently: it has yielded the chunks of the videos listed
    before, and what the failing generator yielded before it threw; the
    videos listed after it are never loaded. *)
Theorem getUnfilteredChunks_stops_at_failing_video (this : t) (videos : list Video)
    (before after : list string) (videoId : string) (e : Error) :
  getChannelVideos (channelId this) = Ok videos ->
  map id videos = before ++ videoId :: after ->
  (forall v, In v before -> thrown (chunks_of this v) = None) ->
  thrown (chunks_of this videoId) = Some e ->
  getUnfilteredChunks getChannelVideos YoutubeLoader_getUnfilteredChunks this
  = {| yielded := all_chunks YoutubeLoader_getUnfilteredChunks this before
                  ++ map (restamp this) (yielded (chunks_of this videoId));
       thrown := None |}.
Proof.
  intros Hvideos Hids Hok Hthrown. unfold getUnfilteredChunks.
  rewrite Hvideos, Hids, (videos_loop_stops this before after videoId Hok Hthrown).
  reflexivity.
Qed.

(** X22: When every video generator completes, the channel loader yields the
    chunks of all listed videos, video by video in the order of the listing. *)
Theorem getUnfilteredChunks_yields_every_video (this : t) (videos : list Video) :
  getChannelVideos (channelId this) = Ok videos ->
  (forall videoId, In videoId (map id videos) -> thrown (chunks_of this videoId) = None) ->
  getUnfilteredChunks getChannelVideos YoutubeLoader_getUnfilteredChunks this
  = {| yielded := all_chunks YoutubeLoader_getUnfilteredChunks this (map id videos);
       thrown := None |}.
Proof.
  intros Hvideos Hok. unfold getUnfilteredChunks.
  rewrite Hvideos, (videos_loop_complete this (map id videos) Hok). reflexivity.
Qed.

End YoutubeChannelLoaderFacts.

(** * More runs on concrete inputs *)

(** ** Ingestion *)

Lemma incrementalLoader_leaves_record_witness :
  insert_contract (D := MemoryDb.t)
  /\ embeds (embedding ingested)
  /\ exists app',
       incrementalLoader batch_size "L" [chunk "c" "L"; chunk "d" "L"; chunk "e" "L"] ingested
       = (Ok tt, app')
       /\ vector_count app' = vector_count ingested + 3
       /\ cache app' = Some [("L", 2)]
       /\ loaders app' = loaders ingested.
Proof.
  split; [exact MemoryDb_insert_contract|]. split; [exact Fixture_embeds|].
  exact (incrementalLoader_leaves_record batch_size "L"
           [chunk "c" "L"; chunk "d" "L"; chunk "e" "L"] ingested
           MemoryDb_insert_contract Fixture_embeds).
Defined.

Lemma batchLoadChunks_batches_bounded_witness :
  0 < batch_size
  /\ exists new,
       made_calls empty
         (snd (batchLoadChunks batch_size "L" [chunk "a" "L"; chunk "b" "L"; chunk "c" "L"]
                 empty)) new
       /\ Forall (batch_within batch_size) new.
Proof.
  assert (HB : 0 < batch_size) by (unfold batch_size; lia).
  split; [exact HB|].
  exact (batchLoadChunks_batches_bounded (C := MemoryCache.t) "L"
           [chunk "a" "L"; chunk "b" "L"; chunk "c" "L"] empty HB).
Defined.

Lemma batch_size_does_not_change_what_is_stored_witness :
  let gen := [chunk "a" "L"; chunk "b" "L"; chunk "c" "L"] in
  insert_contract (D := MemoryDb.t)
  /\ embeds (embedding empty)
  /\ exists app1 new1 pending1 app2 new2 pending2,
       batchLoadChunks 2 "L" gen empty = (Ok (3, pending1), app1)
       /\ made_calls empty app1 new1
       /\ batchLoadChunks 500 "L" gen empty = (Ok (3, pending2), app2)
       /\ made_calls empty app2 new2
       /\ map chunk_of (inserted new1) = map chunk_of (inserted new2)
       /\ vector_count app1 = vector_count app2.
Proof.
  intros gen.
  split; [exact MemoryDb_insert_contract|]. split; [exact Fixture_embeds|].
  exact (batch_size_does_not_change_what_is_stored 2 500 "L" gen empty
           MemoryDb_insert_contract Fixture_embeds).
Defined.

Lemma addLoader_without_chunks_witness :
  getChunks (loader "L" []) = []
  /\ cache_records (C := MemoryCache.t)
  /\ no_prior_record "L" empty
  /\ exists app',
       addLoader batch_size (loader "L" []) empty
       = (Ok {| entriesAdded := 0; uniqueId := "L" |}, app')
       /\ made_calls empty app' [LoaderInit "L"; CacheHasLoader "L"; CacheAddLoader "L" 0]
       /\ vectorDb app' = []
       /\ cache app' = Some [("L", 0)].
Proof.
  assert (Hfresh : no_prior_record (getUniqueId (loader "L" [])) empty) by reflexivity.
  split; [reflexivity|]. split; [exact MemoryCache_records|]. split; [exact Hfresh|].
  exact (addLoader_without_chunks batch_size (loader "L" []) empty eq_refl
           MemoryCache_records Hfresh).
Defined.

Lemma batchLoadChunks_stamps_chunks_witness :
  let gen := [Chunk.mk "a" [("uniqueLoaderId", "other"); ("source", "s")]] in
  insert_contract (D := MemoryDb.t)
  /\ embeds (embedding empty)
  /\ exists app' new pending,
       batchLoadChunks batch_size "L" gen empty = (Ok (1, pending), app')
       /\ made_calls empty app' new
       /\ Forall2 (stamped "L") (inserted new) gen.
Proof.
  intros gen.
  split; [exact MemoryDb_insert_contract|]. split; [exact Fixture_embeds|].
  exact (batchLoadChunks_stamps_chunks (C := MemoryCache.t) batch_size "L" gen empty
           MemoryDb_insert_contract Fixture_embeds).
Defined.

Lemma addLoader_embedding_failure_witness :
  let e := CollaboratorError "embedding service down" in
  embedding_fails (embedding offline) e
  /\ getChunks (loader "L" ["a"; "b"; "c"]) <> []
  /\ no_prior_record "L" offline
  /\ exists app' texts,
       addLoader batch_size (loader "L" ["a"; "b"; "c"]) offline = (Throw e, app')
       /\ made_calls offline app' [LoaderInit "L"; CacheHasLoader "L"; EmbedDocuments texts]
       /\ vectorDb app' = []
       /\ cache app' = Some []
       /\ loaders app' = [].
Proof.
  intros e.
  assert (Hfail : embedding_fails (embedding offline) e) by (intros texts; reflexivity).
  assert (Hne : getChunks (loader "L" ["a"; "b"; "c"]) <> []) by discriminate.
  assert (Hfresh : no_prior_record (getUniqueId (loader "L" ["a"; "b"; "c"])) offline)
    by reflexivity.
  split; [exact Hfail|]. split; [exact Hne|]. split; [exact Hfresh|].
  exact (addLoader_embedding_failure batch_size (loader "L" ["a"; "b"; "c"]) offline
           Hfail Hne Hfresh).
Defined.

Lemma addLoader_tracks_one_per_id_witness :
  let replacement := loader "L" ["c"] in
  let app' := snd (addLoader batch_size replacement ingested) in
  addLoader batch_size replacement ingested
  = (Ok {| entriesAdded := 1; uniqueId := "L" |}, app')
  /\ loaders ingested = [loader "L" ["a"; "b"]]
  /\ loaders app' = [replacement].
Proof.
  intros replacement app'.
  assert (Hrun : addLoader batch_size replacement ingested
                 = (Ok {| entriesAdded := 1; uniqueId := "L" |}, app'))
    by (vm_compute; reflexivity).
  split; [exact Hrun|]. split; [reflexivity|].
  destruct (addLoader_tracks_one_per_id batch_size replacement ingested Hrun)
    as (_ & Hloaders & _).
  exact Hloaders.
Defined.

Lemma addLoader_zero_record_deletes_nothing_witness :
  let l := loader "L" ["a"; "b"] in
  insert_contract (D := MemoryDb.t)
  /\ embeds (embedding recorded_zero)
  /\ cache_records (C := MemoryCache.t)
  /\ cache recorded_zero = Some [("L", 0)]
  /\ BaseCache.hasLoader "L" ([("L", 0)] : MemoryCache.t) = Ok true
  /\ BaseCache.getLoader "L" ([("L", 0)] : MemoryCache.t) = Ok {| chunkCount := 0 |}
  /\ exists app' new,
       addLoader batch_size l recorded_zero
       = (Ok {| entriesAdded := 2; uniqueId := "L" |}, app')
       /\ made_calls recorded_zero app' new
       /\ forallb (fun call => negb (is_deletion call)) new = true
       /\ vector_count app' = 2 + 2.
Proof.
  intros l.
  assert (Hc : cache recorded_zero = Some [("L", 0)]) by reflexivity.
  assert (Hhas : BaseCache.hasLoader (getUniqueId l) ([("L", 0)] : MemoryCache.t) = Ok true)
    by reflexivity.
  assert (Hget : BaseCache.getLoader (getUniqueId l) ([("L", 0)] : MemoryCache.t)
                 = Ok {| chunkCount := 0 |}) by reflexivity.
  split; [exact MemoryDb_insert_contract|]. split; [exact Fixture_embeds|].
  split; [exact MemoryCache_records|].
  repeat (split; [assumption|]).
  exact (addLoader_zero_record_deletes_nothing batch_size l recorded_zero
           MemoryDb_insert_contract Fixture_embeds MemoryCache_records Hc Hhas Hget).
Defined.

(** ** Deletion *)

Lemma deleteLoader_deleteKeys_throws_witness :
  let e := CollaboratorError "store unavailable" in
  BaseDb.deleteKeys "L" (vectorDb unavailable) = (Throw e, tt)
  /\ exists app',
       deleteLoader "L" true unavailable = (Throw e, app')
       /\ made_calls unavailable app' [DbDeleteKeys "L"]
       /\ vectorDb app' = tt
       /\ cache app' = Some [("L", 1)]
       /\ loaders app' = [loader "L" ["a"]].
Proof.
  intros e.
  assert (Hdel : BaseDb.deleteKeys "L" (vectorDb unavailable) = (Throw e, tt))
    by reflexivity.
  split; [exact Hdel|].
  exact (deleteLoader_deleteKeys_throws "L" unavailable Hdel).
Defined.

(** ** Retrieval *)


Lemma getEmbeddings_keeps_order_of_ties_witness :
  let found := [hit "a" "s1" (7 # 10); hit "b" "s2" (9 # 10); hit "c" "s3" (7 # 10);
                hit "d" "s4" (3 # 10)] in
  embedQuery (embedding tied) "q" = Ok [1%Q]
  /\ BaseDb.similaritySearch [1%Q] (searchResultCount tied + 10) (vectorDb tied) = Ok found
  /\ reranked (reranker tied) "q" found = Ok found
  /\ exists results app',
       getEmbeddings "q" tied = (Ok results, app')
       /\ exists left_out,
            with_score (7 # 10) (relevant (1 # 2) found)
            = with_score (7 # 10) results ++ left_out.
Proof.
  intros found.
  assert (Hq : embedQuery (embedding tied) "q" = Ok [1%Q]) by reflexivity.
  assert (Hfound : BaseDb.similaritySearch [1%Q] (searchResultCount tied + 10)
                     (vectorDb tied) = Ok found) by (vm_compute; reflexivity).
  assert (Hrr : reranked (reranker tied) "q" found = Ok found) by reflexivity.
  repeat (split; [assumption|]).
  destruct (getEmbeddings_keeps_order_of_ties "q" tied Hq Hfound Hrr)
    as (results & app' & Hrun & Hties).
  exists results, app'. split; [exact Hrun | exact (Hties (7 # 10)%Q)].
Defined.

Lemma getContext_within_ranking_witness :
  let found := [hit "a" "s1" (9 # 10); hit "b" "s2" (6 # 10); hit "a" "s3" (8 # 10);
                hit "d" "s4" (3 # 10)] in
  embedQuery (embedding retrieval) (identity "q") = Ok [1%Q]
  /\ BaseDb.similaritySearch [1%Q] (searchResultCount retrieval + 10) (vectorDb retrieval)
     = Ok found
  /\ reranked (reranker retrieval) (identity "q") found = Ok found
  /\ exists context app',
       getContext identity "q" retrieval = (Ok context, app')
       /\ List.length context <= 3
       /\ Forall (fun r => (1 # 2 < ExtractChunkData.score r)%Q) context
       /\ (forall r, In r context -> In r found).
Proof.
  intros found.
  assert (Hq : embedQuery (embedding retrieval) (identity "q") = Ok [1%Q]) by reflexivity.
  assert (Hfound : BaseDb.similaritySearch [1%Q] (searchResultCount retrieval + 10)
                     (vectorDb retrieval) = Ok found) by (vm_compute; reflexivity).
  assert (Hrr : reranked (reranker retrieval) (identity "q") found = Ok found)
    by reflexivity.
  repeat (split; [assumption|]).
  exact (getContext_within_ranking identity "q" retrieval Hq Hfound Hrr).
Defined.

(** ** Initialisation *)

Lemma init_ingests_every_loader_witness :
  model_init lifecycle (model configured) = Ok tt
  /\ vectorDb_init lifecycle (getDimensions lifecycle (embedding configured))
       (vectorDb configured) = (Ok tt, [])
  /\ cache configured = None
  /\ insert_contract (D := MemoryDb.t)
  /\ embeds (embedding configured)
  /\ NoDup (map getUniqueId (getUnique lifecycle (loaders configured)))
  /\ exists app',
       init batch_size lifecycle configured = (Ok tt, app')
       /\ loaders app' = [loader "L" ["a"; "b"; "c"]; loader "K" ["x"]]
       /\ vector_count app' = 0 + 4
       /\ cache app' = None.
Proof.
  assert (Hnd : NoDup (map getUniqueId (getUnique lifecycle (loaders configured)))).
  { cbn. constructor; [|constructor; [|constructor]].
    - intros [H | []]; discriminate H.
    - intros []. }
  split; [reflexivity|]. split; [reflexivity|]. split; [reflexivity|].
  split; [exact MemoryDb_insert_contract|]. split; [exact Fixture_embeds|].
  split; [exact Hnd|].
  exact (init_ingests_every_loader batch_size lifecycle configured (d0 := [])
           eq_refl eq_refl eq_refl MemoryDb_insert_contract Fixture_embeds Hnd).
Defined.

(** ** The YouTube channel loader *)

Lemma getUnfilteredChunks_stops_at_failing_video_witness :
  let v1 := Chunk.mk "v1" [("type", "YoutubeChannelLoader"); ("source", "v1");
                           ("originalSource", "UC1")] in
  let v2 := Chunk.mk "v2" [("type", "YoutubeChannelLoader"); ("source", "v2");
                           ("originalSource", "UC1")] in
  channel_videos (YoutubeChannelLoader.channelId channel)
  = Ok [ {| YoutubeChannelLoader.id := "v1" |}; {| YoutubeChannelLoader.id := "v2" |};
         {| YoutubeChannelLoader.id := "v3" |} ]
  /\ YoutubeChannelLoader.thrown (video_chunks "v1" 2000 None) = None
  /\ YoutubeChannelLoader.thrown (video_chunks "v2" 2000 None)
     = Some (CollaboratorError "no transcript")
  /\ YoutubeChannelLoader.getUnfilteredChunks channel_videos video_chunks channel
     = {| YoutubeChannelLoader.yielded := [v1; v1; v2];
          YoutubeChannelLoader.thrown := None |}.
Proof.
  intros v1 v2.
  split; [reflexivity|]. split; [reflexivity|]. split; [reflexivity|].
  refine (getUnfilteredChunks_stops_at_failing_video channel_videos video_chunks channel
            ["v1"] ["v3"] "v2" eq_refl eq_refl _ eq_refl).
  intros v [<- | []]. reflexivity.
Defined.

Lemma getUnfilteredChunks_yields_every_video_witness :
  let passed v := Chunk.mk v [("type", "YoutubeChannelLoader"); ("source", v);
                              ("originalSource", "UC1")] in
  channel_videos (YoutubeChannelLoader.channelId channel)
  = Ok [ {| YoutubeChannelLoader.id := "v1" |}; {| YoutubeChannelLoader.id := "v2" |};
         {| YoutubeChannelLoader.id := "v3" |} ]
  /\ (forall videoId, In videoId ["v1"; "v2"; "v3"] ->
        YoutubeChannelLoader.thrown (sound_video_chunks videoId 2000 None) = None)
  /\ YoutubeChannelLoader.getUnfilteredChunks channel_videos sound_video_chunks channel
     = {| YoutubeChannelLoader.yielded := [passed "v1"; passed "v2"; passed "v3"];
          YoutubeChannelLoader.thrown := None |}.
Proof.
  intros passed.
  assert (Hok : forall videoId, In videoId ["v1"; "v2"; "v3"] ->
            YoutubeChannelLoader.thrown (sound_video_chunks videoId 2000 None) = None)
    by (intros videoId _; reflexivity).
  split; [reflexivity|]. split; [exact Hok|].
  exact (getUnfilteredChunks_yields_every_video channel_videos sound_video_chunks channel
           eq_refl Hok).
Defined.

(** ** Registering twice, and the sources of an answer *)

Lemma MemoryCache_remembers : cache_remembers (C := MemoryCache.t).
Proof.
  intros id count c. simpl.
  unfold MemoryCache.hasLoader, MemoryCache.getLoader.
  rewrite (JsMap_get_set _ String.eqb_eq), String.eqb_refl. split; reflexivity.
Qed.

Lemma addLoader_twice_doubles_full_batches_witness :
  let l := loader "L" ["a"; "b"] in
  0 < batch_size
  /\ List.length (getChunks l) mod batch_size = 0
  /\ insert_contract (D := MemoryDb.t)
  /\ embeds (embedding empty)
  /\ cache_records (C := MemoryCache.t)
  /\ cache_remembers (C := MemoryCache.t)
  /\ cache empty = Some []
  /\ BaseCache.hasLoader "L" ([] : MemoryCache.t) = Ok false
  /\ exists app1 app2 new2,
       addLoader batch_size l empty = (Ok {| entriesAdded := 2; uniqueId := "L" |}, app1)
       /\ addLoader batch_size l app1 = (Ok {| entriesAdded := 2; uniqueId := "L" |}, app2)
       /\ made_calls app1 app2 new2
       /\ forallb (fun call => negb (is_deletion call)) new2 = true
       /\ vector_count app2 = 0 + 2 * 2.
Proof.
  intros l.
  assert (HB : 0 < batch_size) by (unfold batch_size; lia).
  assert (Hfull : List.length (getChunks l) mod batch_size = 0) by reflexivity.
  assert (Hc : cache empty = Some (@nil (string * nat))) by reflexivity.
  assert (Hhas : BaseCache.hasLoader (getUniqueId l) ([] : MemoryCache.t) = Ok false)
    by reflexivity.
  split; [exact HB|]. split; [exact Hfull|].
  split; [exact MemoryDb_insert_contract|]. split; [exact Fixture_embeds|].
  split; [exact MemoryCache_records|]. split; [exact MemoryCache_remembers|].
  split; [exact Hc|]. split; [exact Hhas|].
  exact (addLoader_twice_doubles_full_batches l empty HB Hfull MemoryDb_insert_contract
           Fixture_embeds MemoryCache_records MemoryCache_remembers Hc Hhas).
Defined.

Lemma query_cites_relevant_results_witness :
  let found := [hit "a" "s1" (9 # 10); hit "b" "s2" (6 # 10); hit "a" "s3" (8 # 10);
                hit "d" "s4" (3 # 10)] in
  embedQuery (embedding retrieval) (identity "q") = Ok [1%Q]
  /\ BaseDb.similaritySearch [1%Q] (searchResultCount retrieval + 10) (vectorDb retrieval)
     = Ok found
  /\ reranked (reranker retrieval) (identity "q") found = Ok found
  /\ (forall context, exists answer,
        model_query (model retrieval) (queryTemplate retrieval) "q" context None = Ok answer)
  /\ exists response app',
       query identity "q" None retrieval = (Ok response, app')
       /\ List.length (sources response) <= 3
       /\ forall s, In s (sources response) ->
            exists r, In r found /\ (1 # 2 < ExtractChunkData.score r)%Q /\ source_of r = s.
Proof.
  intros found.
  assert (Hq : embedQuery (embedding retrieval) (identity "q") = Ok [1%Q]) by reflexivity.
  assert (Hfound : BaseDb.similaritySearch [1%Q] (searchResultCount retrieval + 10)
                     (vectorDb retrieval) = Ok found) by (vm_compute; reflexivity).
  assert (Hrr : reranked (reranker retrieval) (identity "q") found = Ok found)
    by reflexivity.
  assert (Hmodel : forall context, exists answer,
            model_query (model retrieval) (queryTemplate retrieval) "q" context None
            = Ok answer) by (intros context; eexists; reflexivity).
  repeat (split; [assumption|]).
  exact (query_cites_relevant_results identity "q" None retrieval Hq Hfound Hrr Hmodel).
Defined.
